(** * chogori-platform: the txbench client and the retry strategy

    A shallow embedding of
      - [src/k2/transport/RetryStrategy.h]  (class ExponentialBackoffStrategy)
      - [src/k2/cmd/txbench/txbench_client.cpp]  (class Client)
    together with the properties stated about them.

    Conventions.  A [uint64_t] or [uint32_t] field is a [Z] whose wrap-around
    is written out ([wrap64]); a [Duration] or [TimePoint] is a [Z] count of
    clock ticks (nanoseconds), and a product of a [Duration] is taken on 64
    signed bits ([wrapS64]); a resolved [seastar::future<>] is either ready
    or failed with an exception. *)

From stdpp Require Import base tactics option list numbers.
From Stdlib Require Import ZArith Lia.

Local Open Scope Z_scope.

(** ** Part I: ExponentialBackoffStrategy (RetryStrategy.h) *)

(** A point in time and a length of time, in clock ticks (nanoseconds). *)
Abbreviation Duration := Z (only parsing).
Abbreviation TimePoint := Z (only parsing).

(** The tick count of a [Duration] is a [long int] (MPackSerialization.h
    reads and writes it as one): 64 bits, signed.  [wrapS64 x] is the
    two's-complement word the machine keeps of [x]; it is [x] itself when
    [x] fits ([fitsS64]).  (The language leaves a signed product that does
    not fit undefined; the word kept is what the compiled code yields.) *)
Definition wrapS64 (x : Z) : Z := (x + 2 ^ 63) mod 2 ^ 64 - 2 ^ 63.

Definition fitsS64 (x : Z) : Prop := - 2 ^ 63 <= x < 2 ^ 63.

Definition nsec_per_msec : Z := 1000000.
Definition msec (n : Z) : Duration := n * nsec_per_msec.

(** The exceptions a future of this code can carry. *)
Inductive exn : Type :=
| DispatcherShutdown
| RequestTimeoutException
| DuplicateExecutionException
| OtherException (what : nat).

(** A resolved [seastar::future<>]. *)
Inductive future : Type :=
| Ready
| Failed (e : exn).

Definition failed (f : future) : bool :=
  match f with Ready => false | Failed _ => true end.

(** The private fields of the class, under the source's names.  [_retries]
    and [_try] are C ints; the loop increments [_try] only while it is below
    [_retries], so the increment cannot overflow and is written on [Z]. *)
Record ExponentialBackoffStrategy : Type := mkStrategy {
  _retries : Z;
  _try : Z;
  _rate : Z;
  _currentTimeout : Duration;
  _success : bool;
  _used : bool
}.

(** Modelled from the spec: the constructor and the three setters live in
    RetryStrategy.cpp, which is not part of the sources at hand.  The spec
    gives the driver a try counter that starts at zero, flags [used] and
    [succeeded] that start cleared, and a start timeout that is the first
    value of the current timeout.  The default values of [retries], [rate]
    and the start timeout are not given; they are parameters here. *)
Definition newStrategy (retries rate : Z) (startTimeout : Duration)
  : ExponentialBackoffStrategy :=
  {| _retries := retries; _try := 0; _rate := rate;
     _currentTimeout := startTimeout; _success := false; _used := false |}.

(** Modelled from the spec: setter of RetryStrategy.cpp. *)
Definition withRetries (retries : Z) (d : ExponentialBackoffStrategy) :=
  {| _retries := retries; _try := _try d; _rate := _rate d;
     _currentTimeout := _currentTimeout d; _success := _success d;
     _used := _used d |}.

(** Modelled from the spec: setter of RetryStrategy.cpp. *)
Definition withRate (rate : Z) (d : ExponentialBackoffStrategy) :=
  {| _retries := _retries d; _try := _try d; _rate := rate;
     _currentTimeout := _currentTimeout d; _success := _success d;
     _used := _used d |}.

(** Modelled from the spec: setter of RetryStrategy.cpp. *)
Definition withStartTimeout (startTimeout : Duration)
    (d : ExponentialBackoffStrategy) :=
  {| _retries := _retries d; _try := _try d; _rate := _rate d;
     _currentTimeout := startTimeout; _success := _success d;
     _used := _used d |}.

(** [factorial k] is [k!]: the factor by which the start timeout has grown
    when attempt [k] is made, each attempt multiplying by its own number. *)
Fixpoint factorial (k : nat) : Z :=
  match k with
  | O => 1
  | S k' => Z.of_nat k * factorial k'
  end.

(** The timeout of attempt [k] for a driver that starts with [start]: each
    attempt multiplies the current timeout by its own number, on 64 signed
    bits.  ([timeoutAt start 0] is the value before the first attempt.) *)
Fixpoint timeoutAt (start : Duration) (k : nat) : Duration :=
  match k with
  | O => start
  | S k' => wrapS64 (timeoutAt start k' * Z.of_nat k)
  end.

Section Run.

(** The operated function is a closure over the caller's world: it takes
    the remaining retries and the timeout to use, and resolves to a future
    while changing that world.  (A function that throws instead of
    returning a future is not covered.) *)
Context {W : Type}.
Variable func : Z -> Duration -> W -> future * W.

(** What [run] leaves behind: the driver, the world, the future stored
    behind [resultPtr], and the arguments of every call of [func], oldest
    first. *)
Record RunState : Type := mkRun {
  drv : ExponentialBackoffStrategy;
  world : W;
  result : future;
  calls : list (Z * Duration)
}.

(** The stop condition of the [do_until] loop. *)
Definition loopDone (d : ExponentialBackoffStrategy) : bool :=
  _success d || (_retries d <=? _try d).

(** One execution of the loop body (the product of [_currentTimeout] is
    the one of its 64-bit tick count):
      _try++; _currentTimeout *= _try;
      func(_retries - _try, _currentTimeout)
        .handle_exception_type(DispatcherShutdown -> _try = _retries,
                               fail with RequestTimeoutException)
        .then_wrapped(_success = !failed; *resultPtr = fut)  *)
Definition attempt (s : RunState) : RunState :=
  let d := drv s in
  let try' := _try d + 1 in
  let timeout' := wrapS64 (_currentTimeout d * try') in
  let remaining := _retries d - try' in
  let '(fut, w') := func remaining timeout' (world s) in
  let '(try'', fut') :=
    match fut with
    | Failed DispatcherShutdown => (_retries d, Failed RequestTimeoutException)
    | _ => (try', fut)
    end in
  {| drv := {| _retries := _retries d; _try := try''; _rate := _rate d;
               _currentTimeout := timeout'; _success := negb (failed fut');
               _used := _used d |};
     world := w';
     result := fut';
     calls := calls s ++ [(remaining, timeout')] |}.

(** [seastar::do_until(stop, body)].  The recursion is on a bound for the
    number of iterations; [None] is a bound that was too small. *)
Fixpoint do_until (fuel : nat) (s : RunState) : option RunState :=
  if loopDone (drv s) then Some s
  else match fuel with
       | O => None
       | S fuel' => do_until fuel' (attempt s)
       end.

(** [ExponentialBackoffStrategy::run].  The loop makes at most
    [_retries - _try] iterations, which is the bound given to [do_until]. *)
Definition run (d : ExponentialBackoffStrategy) (w : W) : option RunState :=
  if _used d then
    Some {| drv := d; world := w;
            result := Failed DuplicateExecutionException; calls := [] |}
  else
    do_until (Z.to_nat (_retries d - _try d))
      {| drv := d; world := w;
         result := Failed RequestTimeoutException; calls := [] |}.

(** What the loop keeps true of the timeout and of the calls it has made,
    for a driver that started with timeout [start] and [retries] retries. *)
Definition onSchedule (start : Duration) (retries : Z) (s : RunState) : Prop :=
  _retries (drv s) = retries /\
  _currentTimeout (drv s) = timeoutAt start (length (calls s)) /\
  (_try (drv s) = Z.of_nat (length (calls s)) \/ loopDone (drv s) = true) /\
  forall k rem t, calls s !! k = Some (rem, t) ->
    t = timeoutAt start (S k) /\ rem = retries - Z.of_nat (S k).

(** Two runs that differ in [_rate] only. *)
Definition rateBlind (s1 s2 : RunState) : Prop :=
  _retries (drv s1) = _retries (drv s2) /\
  _try (drv s1) = _try (drv s2) /\
  _currentTimeout (drv s1) = _currentTimeout (drv s2) /\
  _success (drv s1) = _success (drv s2) /\
  _used (drv s1) = _used (drv s2) /\
  world s1 = world s2 /\ result s1 = result s2 /\ calls s1 = calls s2.

End Run.

Arguments RunState W : clear implicits.

(** An operated function that times out whenever it is called. *)
Definition alwaysTimesOut (remaining : Z) (timeout : Duration) (w : unit)
  : future * unit :=
  (Failed RequestTimeoutException, w).

(** The bootstrap endpoint of the discovery scenario: it refuses three
    times and answers the fourth call.  Its world is the number of calls it
    has seen. *)
Definition refuseThrice (remaining : Z) (timeout : Duration) (seen : nat)
  : future * nat :=
  (if (seen <? 3)%nat then Failed (OtherException 0) else Ready, S seen).


(** ** Part II: the benchmark client (txbench_client.cpp) *)

(** *** Machine integers *)

Definition wrap32 (x : Z) : Z := x mod 2 ^ 32.
Definition wrap64 (x : Z) : Z := x mod 2 ^ 64.

Definition u32b (x : Z) : bool := (0 <=? x) && (x <? 2 ^ 32).
Definition u64b (x : Z) : bool := (0 <=? x) && (x <? 2 ^ 64).

(** *** Records of txbench_common.h *)

(** Modelled from the spec: txbench_common.h, which declares SessionConfig,
    BenchSession, Ack and SessionAck, is not part of the sources at hand.
    The fields and their widths are those of the spec's data model: the
    five configuration fields ([bool] and [u32]), the session's [u64]
    counters, and the four [u64] words of an ACK.  The session's endpoint
    handle ([client]) plays no part in the credit accounting and is left
    out. *)
Record SessionConfig : Type := mkConfig {
  echoMode : bool;
  responseSize : Z;
  pipelineSize : Z;
  pipelineCount : Z;
  ackCount : Z
}.

(** Modelled from the spec: the session record of txbench_common.h, with
    the fields the client reads and writes. *)
Record BenchSession : Type := mkSession {
  config : SessionConfig;
  sessionID : Z;
  totalSize : Z;
  totalCount : Z;
  unackedSize : Z;
  unackedCount : Z
}.

(** Modelled from the spec: the ACK record of txbench_common.h. *)
Module Ack.
Record t : Type := mk {
  sessionID : Z;
  totalCount : Z;
  totalSize : Z;
  checksum : Z
}.
End Ack.

(** An incoming message.  [request.payload] may be a null pointer; a payload
    that is present is read as one [Ack] record. *)
Record Request : Type := mkRequest {
  payload : option Ack.t
}.

(** *** What the client does to the outside *)

Inductive warning : Type :=
| UnknownSession (have recv : Z)
| TooManyMessages (have recv : Z)
| AckTooOld (tc uc ac : Z)
| TooMuchData (have recv : Z)
| ChecksumMismatch (got exp : Z).

Inductive event : Type :=
| Warn (w : warning)                       (* K2LOG_W *)
| SendPromSet                              (* _sendProm.set_value() *)
| RingRead (idx : Z)                       (* _requestIssueTimes[idx] read *)
| RingWrite (idx : Z)                      (* _requestIssueTimes[idx] written *)
| SendRequest (sid cnt bytes : Z).         (* RPC().send(REQUEST, ...) *)

(** What stops a step short of its end. *)
Inductive fault : Type :=
| AssertionFailed       (* a K2ASSERT that does not hold *)
| DivisionByZero        (* x % 0 *)
| IndexOutOfRange.      (* operator[] past the end of the vector *)

Inductive outcome (A : Type) : Type :=
| Ok (a : A)
| Crash (f : fault)
| Unfinished.           (* a loop bound that was too small *)

Arguments Ok {A} a.
Arguments Crash {A} f.
Arguments Unfinished {A}.

(** *** The class *)

(** The fields of [Client] that the send/ack state machine touches.
    [_requestLatency] stands for the histogram: the durations handed to
    [add], oldest first. *)
Record Client : Type := mkClient {
  _session : BenchSession;
  _stopped : bool;
  _haveSendPromise : bool;
  _requestLatency : list Duration;
  _requestIssueTimes : list TimePoint;
  _lastAckedTotal : Z
}.

(** The session configuration as the constructor builds it from the
    command-line values; the product is taken in 32 bits. *)
Definition configFromFlags
    (echo_mode : bool)
    (request_size pipeline_depth_mbytes pipeline_depth_count ack_count : Z)
  : SessionConfig :=
  {| echoMode := echo_mode;
     responseSize := request_size;
     pipelineSize := wrap32 (wrap32 (pipeline_depth_mbytes * 1024) * 1024);
     pipelineCount := pipeline_depth_count;
     ackCount := ack_count |}.

(** Modelled from the spec: the state in which [_benchmark] starts.  The
    constructor, [start] and [_startSession] (all in the source) clear
    [_stopped], [_haveSendPromise] and [_lastAckedTotal], resize the ring to
    [pipelineCount] default time points, and store the session id of the
    handshake.  That a fresh BenchSession has all four counters at zero is
    the spec's (the struct is declared in txbench_common.h). *)
Definition startSession (cfg : SessionConfig) (sid : Z) : Client :=
  {| _session := {| config := cfg; sessionID := sid;
                    totalSize := 0; totalCount := 0;
                    unackedSize := 0; unackedCount := 0 |};
     _stopped := false;
     _haveSendPromise := false;
     _requestLatency := [];
     _requestIssueTimes := replicate (Z.to_nat (pipelineCount cfg)) 0;
     _lastAckedTotal := 0 |}.

(** *** Field updates *)

Definition setCredit (s : BenchSession) (usize ucount : Z) : BenchSession :=
  {| config := config s; sessionID := sessionID s;
     totalSize := totalSize s; totalCount := totalCount s;
     unackedSize := usize; unackedCount := ucount |}.

Definition setHaveSendPromise (b : bool) (c : Client) : Client :=
  {| _session := _session c; _stopped := _stopped c;
     _haveSendPromise := b;
     _requestLatency := _requestLatency c;
     _requestIssueTimes := _requestIssueTimes c;
     _lastAckedTotal := _lastAckedTotal c |}.

Definition setStopped (b : bool) (c : Client) : Client :=
  {| _session := _session c; _stopped := b;
     _haveSendPromise := _haveSendPromise c;
     _requestLatency := _requestLatency c;
     _requestIssueTimes := _requestIssueTimes c;
     _lastAckedTotal := _lastAckedTotal c |}.

(** *** Client::canSend *)

Definition canSend (c : Client) : bool :=
  (unackedSize (_session c) <? pipelineSize (config (_session c))) &&
  (unackedCount (_session c) <? pipelineCount (config (_session c))).

(** *** Client::send *)

(** [sizeof(_session.sessionID) + sizeof(_session.totalCount)] *)
Definition padding : Z := 8 + 8.

Definition send (now : TimePoint) (c : Client) : outcome (Client * list event) :=
  let s := _session c in
  let cfg := config s in
  if negb (padding <? responseSize cfg) then Crash AssertionFailed
  else
    let s' := {| config := cfg; sessionID := sessionID s;
                 totalSize := wrap64 (totalSize s + responseSize cfg);
                 totalCount := wrap64 (totalCount s + 1);
                 unackedSize := wrap64 (unackedSize s + responseSize cfg);
                 unackedCount := wrap64 (unackedCount s + 1) |} in
    if pipelineCount cfg =? 0 then Crash DivisionByZero
    else
      let idx := totalCount s' mod pipelineCount cfg in
      match _requestIssueTimes c !! Z.to_nat idx with
      | None => Crash IndexOutOfRange
      | Some _ =>
          Ok ({| _session := s';
                 _stopped := _stopped c;
                 _haveSendPromise := _haveSendPromise c;
                 _requestLatency := _requestLatency c;
                 _requestIssueTimes :=
                   <[Z.to_nat idx := now]> (_requestIssueTimes c);
                 _lastAckedTotal := _lastAckedTotal c |},
              [RingWrite idx;
               SendRequest (sessionID s') (totalCount s')
                           (responseSize cfg - padding)])
      end.

(** *** The ACK observer registered by Client::_benchmark *)

(** The latency loop
      for (reqid = totalCount - unackedCount; reqid < ack.totalCount; reqid++)
    started at [reqid], with [hi] for [ack.totalCount].  Each iteration
    yields the slot it read and the duration it handed to the histogram. *)
Fixpoint sampleLoop (fuel : nat) (cfg : SessionConfig) (ring : list TimePoint)
    (now : TimePoint) (hi reqid : Z) : outcome (list (Z * Duration)) :=
  if reqid <? hi then
    match fuel with
    | O => Unfinished
    | S fuel' =>
        if pipelineCount cfg =? 0 then Crash DivisionByZero
        else
          let idx := reqid mod pipelineCount cfg in
          match ring !! Z.to_nat idx with
          | None => Crash IndexOutOfRange
          | Some issued =>
              let dur := now - issued in
              match sampleLoop fuel' cfg ring now hi (wrap64 (reqid + 1)) with
              | Ok rest => Ok ((idx, dur) :: rest)
              | Crash f => Crash f
              | Unfinished => Unfinished
              end
          end
    end
  else Ok [].

(** [(ack.totalCount*(ack.totalCount+1)) /2] on 64-bit unsigned words. *)
Definition expectedChecksum (ack : Ack.t) : Z :=
  wrap64 (Ack.totalCount ack * wrap64 (Ack.totalCount ack + 1)) / 2.

Definition onAck (now : TimePoint) (request : Request) (c : Client)
  : outcome (Client * list event) :=
  match payload request with
  | None => Ok (c, [])
  | Some ack =>
      let s := _session c in
      if negb (Ack.sessionID ack =? sessionID s) then
        Ok (c, [Warn (UnknownSession (sessionID s) (Ack.sessionID ack))])
      else if totalCount s <? Ack.totalCount ack then
        Ok (c, [Warn (TooManyMessages (totalCount s) (Ack.totalCount ack))])
      else
        let old :=
          if Ack.totalCount ack <=? _lastAckedTotal c
          then [Warn (AckTooOld (totalCount s) (unackedCount s)
                                (Ack.totalCount ack))]
          else [] in
        if totalSize s <? Ack.totalSize ack then
          Ok (c, old ++ [Warn (TooMuchData (totalSize s) (Ack.totalSize ack))])
        else
          let sum :=
            if negb (Ack.checksum ack =? expectedChecksum ack)
            then [Warn (ChecksumMismatch (Ack.checksum ack)
                                         (expectedChecksum ack))]
            else [] in
          let first := wrap64 (totalCount s - unackedCount s) in
          match sampleLoop (Z.to_nat (Ack.totalCount ack - first)) (config s)
                  (_requestIssueTimes c) now (Ack.totalCount ack) first with
          | Crash f => Crash f
          | Unfinished => Unfinished
          | Ok samples =>
              let s' := setCredit s
                          (wrap64 (totalSize s - Ack.totalSize ack))
                          (wrap64 (totalCount s - Ack.totalCount ack)) in
              let c' := {| _session := s';
                           _stopped := _stopped c;
                           _haveSendPromise := _haveSendPromise c;
                           _requestLatency :=
                             _requestLatency c ++ map snd samples;
                           _requestIssueTimes := _requestIssueTimes c;
                           _lastAckedTotal := _lastAckedTotal c |} in
              let evs := old ++ sum ++
                         map (fun p => RingRead (fst p)) samples in
              if _haveSendPromise c' then
                Ok (setHaveSendPromise false c', evs ++ [SendPromSet])
              else Ok (c', evs)
          end
  end.

(** *** The sender loop of Client::_benchmark and the timer *)

(** The body of the [do_until] loop. *)
Definition loopBody (now : TimePoint) (c : Client)
  : outcome (Client * list event) :=
  if canSend c then send now c
  else if negb (negb (_haveSendPromise c)) then Crash AssertionFailed
  else Ok (setHaveSendPromise true c, []).

(** One turn of the sender: the loop is over once [_stopped] is set, the
    sender is parked on [_sendProm] while [_haveSendPromise] is set, and
    otherwise the body runs. *)
Definition senderStep (now : TimePoint) (c : Client)
  : outcome (Client * list event) :=
  if _stopped c then Ok (c, [])
  else if _haveSendPromise c then Ok (c, [])
  else loopBody now c.

(** The callback of [_timer]. *)
Definition onTimer (c : Client) : outcome (Client * list event) :=
  let c' := setStopped true c in
  if _haveSendPromise c' then Ok (setHaveSendPromise false c', [SendPromSet])
  else Ok (c', []).

(** What can happen on a shard while the benchmark runs. *)
Inductive op : Type :=
| Sender (now : TimePoint)
| AckMsg (now : TimePoint) (request : Request)
| TimerFired.

Definition step (o : op) (c : Client) : outcome (Client * list event) :=
  match o with
  | Sender now => senderStep now c
  | AckMsg now request => onAck now request c
  | TimerFired => onTimer c
  end.

(** A schedule, run from left to right; the events are collected. *)
Fixpoint exec (ops : list op) (c : Client) : outcome (Client * list event) :=
  match ops with
  | [] => Ok (c, [])
  | o :: ops' =>
      match step o c with
      | Ok (c', evs) =>
          match exec ops' c' with
          | Ok (c'', evs') => Ok (c'', evs ++ evs')
          | Crash f => Crash f
          | Unfinished => Unfinished
          end
      | Crash f => Crash f
      | Unfinished => Unfinished
      end
  end.

(** *** Well-typed inputs *)

Definition config_ok (cfg : SessionConfig) : bool :=
  u32b (responseSize cfg) && u32b (pipelineSize cfg) &&
  u32b (pipelineCount cfg) && u32b (ackCount cfg).

Definition ack_ok (a : Ack.t) : bool :=
  u64b (Ack.sessionID a) && u64b (Ack.totalCount a) &&
  u64b (Ack.totalSize a) && u64b (Ack.checksum a).

Definition request_ok (r : Request) : bool :=
  match payload r with None => true | Some a => ack_ok a end.

Definition op_ok (o : op) : bool :=
  match o with AckMsg _ r => request_ok r | _ => true end.

(** The states a session can be in: those a schedule of well-typed steps
    leads to from the start of the benchmark. *)
Definition reachable (cfg : SessionConfig) (sid : Z) (c : Client) : Prop :=
  config_ok cfg = true /\ u64b sid = true /\
  exists ops evs,
    forallb op_ok ops = true /\ exec ops (startSession cfg sid) = Ok (c, evs).

(** *** Acks as the handler sorts them *)

(** The ack passes the session, count and size checks: it is not dropped. *)
Definition accepted (c : Client) (a : Ack.t) : bool :=
  (Ack.sessionID a =? sessionID (_session c)) &&
  (Ack.totalCount a <=? totalCount (_session c)) &&
  (Ack.totalSize a <=? totalSize (_session c)).

(** The ack does not go back behind what is acknowledged already. *)
Definition fresh (c : Client) (a : Ack.t) : bool :=
  (totalCount (_session c) - unackedCount (_session c) <=? Ack.totalCount a) &&
  (totalSize (_session c) - unackedSize (_session c) <=? Ack.totalSize a).

(** The invariant of the ring and the counters that keeps the steps from
    crashing. *)
Definition client_ok (c : Client) : Prop :=
  let s := _session c in
  config_ok (config s) = true /\
  u64b (sessionID s) = true /\
  u64b (totalSize s) = true /\ u64b (totalCount s) = true /\
  u64b (unackedSize s) = true /\ u64b (unackedCount s) = true /\
  length (_requestIssueTimes c) = Z.to_nat (pipelineCount (config s)) /\
  (pipelineCount (config s) = 0 -> totalCount s = 0 /\ unackedCount s = 0).

(** *** Notions used to state the properties *)

(** The slot and the sample of request [reqid]. *)
Definition sampleOf (cfg : SessionConfig) (ring : list TimePoint)
    (now : TimePoint) (reqid : Z) : Z * Duration :=
  (reqid mod pipelineCount cfg,
   now - default 0 (ring !! Z.to_nat (reqid mod pipelineCount cfg))).


(** The slots read by a step, in the order of the reads. *)
Definition ringReads (evs : list event) : list Z :=
  omap (fun e => match e with RingRead idx => Some idx | _ => None end) evs.

(** The first request id the latency loop of the ACK observer looks at. *)
Definition firstUnacked (c : Client) : Z :=
  wrap64 (totalCount (_session c) - unackedCount (_session c)).

(** The requests an accepted ack is sampled for. *)
Definition sampledRequests (c : Client) (ack : Ack.t) : list Z :=
  seqZ (firstUnacked c) (Ack.totalCount ack - firstUnacked c).

(** The warnings the ACK observer logs for an ack it accepts. *)
Definition acceptedWarnings (c : Client) (ack : Ack.t) : list event :=
  (if Ack.totalCount ack <=? _lastAckedTotal c
   then [Warn (AckTooOld (totalCount (_session c)) (unackedCount (_session c))
                         (Ack.totalCount ack))]
   else []) ++
  (if negb (Ack.checksum ack =? expectedChecksum ack)
   then [Warn (ChecksumMismatch (Ack.checksum ack) (expectedChecksum ack))]
   else []).

(** The credit the sender can have in flight: the count stays within
    [pipelineCount]; the bytes stay within [pipelineSize] or pass it by less
    than one request. *)
Definition creditBound (c : Client) : Prop :=
  let s := _session c in
  unackedCount s <= pipelineCount (config s) /\
  (unackedSize s <= pipelineSize (config s) \/
   unackedSize s < pipelineSize (config s) + responseSize (config s)).

(** The ack of an operation does not go back behind the acknowledged
    totals, if it is one that the observer accepts. *)
Definition notStale (o : op) (c : Client) : bool :=
  match o with
  | AckMsg _ {| payload := Some a |} => implb (accepted c a) (fresh c a)
  | _ => true
  end.

(** *** Concrete sessions *)

(** The command-line defaults. *)
Definition defaultConfig : SessionConfig := configFromFlags false 512 200 10 5.

(** Requests of 1000 bytes against a credit of one MiB. *)
Definition overshootConfig : SessionConfig :=
  configFromFlags false 1000 1 2000 5.

Definition overshootOps : list op := replicate 1049 (Sender 0).

(** A pipeline of two requests in which the first ack is delivered again
    after four requests have been sent. *)
Definition replayConfig : SessionConfig := configFromFlags false 512 200 2 1.

Definition ackOf (sid cnt size : Z) : Request :=
  {| payload := Some {| Ack.sessionID := sid; Ack.totalCount := cnt;
                        Ack.totalSize := size;
                        Ack.checksum := cnt * (cnt + 1) / 2 |} |}.

Definition replayOps : list op :=
  [Sender 0; AckMsg 1 (ackOf 7 1 512); Sender 2; AckMsg 3 (ackOf 7 2 1024);
   Sender 4; Sender 5; AckMsg 6 (ackOf 7 1 512)].

(** No ack that the observer accepts along the schedule is stale. *)
Fixpoint noStaleAcks (ops : list op) (c : Client) : bool :=
  match ops with
  | [] => true
  | o :: ops' =>
      notStale o c &&
      match step o c with
      | Ok (c', _) => noStaleAcks ops' c'
      | _ => true
      end
  end.

(** The state and the events a schedule ends with (the start state and no
    events if it does not end). *)
Definition finalOf (ops : list op) (c : Client) : Client :=
  match exec ops c with Ok (c', _) => c' | _ => c end.

Definition eventsOf (ops : list op) (c : Client) : list event :=
  match exec ops c with Ok (_, evs) => evs | _ => [] end.

(** Two requests, the ack of the first, a third request. *)
Definition pipelinedOps : list op :=
  [Sender 0; Sender 1; AckMsg 2 (ackOf 7 1 512); Sender 3].

(** The default session after two requests, none of them acknowledged. *)
Definition twoInFlight : Client :=
  finalOf [Sender 0; Sender 1] (startSession defaultConfig 7).

(** The ack record of [ackOf]. *)
Definition ackRecord (sid cnt size : Z) : Ack.t :=
  {| Ack.sessionID := sid; Ack.totalCount := cnt; Ack.totalSize := size;
     Ack.checksum := cnt * (cnt + 1) / 2 |}.

(** The default session after one request and after three requests, none
    of them acknowledged. *)
Definition oneInFlight : Client :=
  finalOf [Sender 0] (startSession defaultConfig 7).

Definition threeInFlight : Client :=
  finalOf [Sender 0; Sender 1; Sender 2] (startSession defaultConfig 7).

(** An ack for three requests with a checksum that is not 6. *)
Definition badChecksumAck : Ack.t :=
  {| Ack.sessionID := 7; Ack.totalCount := 3; Ack.totalSize := 1536;
     Ack.checksum := 99 |}.

(** ** Part III: notions for further properties *)

(** *** The retry strategy *)

(** The operated function with a record of the futures it returned, oldest
    first, kept beside its world. *)
Definition logged {W : Type} (func : Z -> Duration -> W -> future * W)
    (remaining : Z) (timeout : Duration) (wl : W * list future)
  : future * (W * list future) :=
  let '(fut, w') := func remaining timeout (fst wl) in
  (fut, (w', snd wl ++ [fut])).

(** A run of the logged function with the record taken away again. *)
Definition unlogged {W : Type} (s : RunState (W * list future)) : RunState W :=
  {| drv := drv s; world := fst (world s); result := result s;
     calls := calls s |}.

(** What [run] hands back when [last] is the last future the operated
    function returned. *)
Definition outcomeOf (last : option future) : future :=
  match last with
  | None => Failed RequestTimeoutException
  | Some (Failed DispatcherShutdown) => Failed RequestTimeoutException
  | Some f => f
  end.

(** The futures after which the loop goes on, retries permitting: failures
    other than a shutdown of the dispatcher. *)
Definition retryable (f : future) : bool :=
  match f with
  | Ready => false
  | Failed DispatcherShutdown => false
  | Failed _ => true
  end.

(** Whether the future is the one a shutdown of the dispatcher gives. *)
Definition isShutdown (f : future) : bool :=
  match f with Failed DispatcherShutdown => true | _ => false end.

(** What the loop keeps true of the record of returned futures, for a
    driver with [retries] retries. *)
Definition stopsAtFirst {W : Type} (retries : Z)
    (s : RunState (W * list future)) : Prop :=
  let log := snd (world s) in
  _retries (drv s) = retries /\
  length log = length (calls s) /\
  result s = outcomeOf (list.last log) /\
  (forall i f, log !! i = Some f -> (S i < length log)%nat ->
     retryable f = true) /\
  (loopDone (drv s) = false ->
     (forall f, list.last log = Some f -> retryable f = true) /\
     _try (drv s) = Z.of_nat (length log)) /\
  (loopDone (drv s) = true ->
     list.last log = Some Ready \/
     list.last log = Some (Failed DispatcherShutdown) \/
     length log = Z.to_nat retries).

(** *** The client *)

(** The headers of the requests a step hands to the transport, in order:
    session id, request number and number of data bytes. *)
Definition sentRequests (evs : list event) : list (Z * Z * Z) :=
  omap (fun e => match e with
                 | SendRequest sid cnt bytes => Some (sid, cnt, bytes)
                 | _ => None
                 end) evs.

(** How often a step fulfils [_sendProm]. *)
Definition promiseSets (evs : list event) : nat :=
  length (omap (fun e => match e with SendPromSet => Some tt | _ => None end)
               evs).

(** The operation is a turn of a sender that is running, not parked, and
    has credit: the turn calls [send]. *)
Definition sends (o : op) (c : Client) : bool :=
  match o with
  | Sender _ => negb (_stopped c) && negb (_haveSendPromise c) && canSend c
  | _ => false
  end.

(** The operation is a turn of a sender that is running, not parked, and
    out of credit: the turn installs [_sendProm]. *)
Definition parks (o : op) (c : Client) : bool :=
  match o with
  | Sender _ =>
      negb (_stopped c) && negb (_haveSendPromise c) && negb (canSend c)
  | _ => false
  end.

(** How often the sender installs [_sendProm] along a schedule. *)
Fixpoint parkCount (ops : list op) (c : Client) : nat :=
  match ops with
  | [] => O
  | o :: ops' =>
      ((if parks o c then 1 else 0) +
       match step o c with
       | Ok (c', _) => parkCount ops' c'
       | _ => 0
       end)%nat
  end.

Definition pending (c : Client) : nat :=
  if _haveSendPromise c then 1%nat else 0%nat.

(** The two gauges of [registerMetrics] that are computed on each read:
    [pipelineCount - unackedCount] and [pipelineSize - unackedSize], on
    64-bit unsigned words. *)
Definition pipelineDepthGauge (c : Client) : Z :=
  wrap64 (pipelineCount (config (_session c)) - unackedCount (_session c)).

Definition pipelineBytesGauge (c : Client) : Z :=
  wrap64 (pipelineSize (config (_session c)) - unackedSize (_session c)).

(** The default session at its start. *)
Definition freshSession : Client := startSession defaultConfig 7.

(** *** Client::_discovery *)

(** The three [std::runtime_error]s of [_discovery], by their messages:
    "we were stopped", "no remote endpoint", "No remote endpoint defined". *)
Definition weWereStopped : exn := OtherException 1.
Definition noRemoteEndpoint : exn := OtherException 2.
Definition noRemoteEndpointDefined : exn := OtherException 3.

(** What [RPC().sendRequest] resolves to: a failure, or a payload pointer
    that is null or holds the buffers of the reply. *)
Inductive rpcReply : Type :=
| RpcFailed (e : exn)
| RpcPayload (p : option (list (list Byte.byte))).

(** What the surroundings do to one attempt: whether the client has been
    stopped by the time the attempt starts, what the transport answers, and
    whether the client is stopped while the request is under way. *)
Record attemptInput : Type := mkInput {
  stopBefore : bool;
  reply : rpcReply;
  stopDuring : bool
}.

(** The part of the client that discovery reads and writes: [_stopped], the
    URL of [_session.client] once it is set, the timeouts of the
    GET_DATA_URL requests handed to the transport (oldest first), and the
    number of attempts made. *)
Record Discovery : Type := mkDiscovery {
  dStopped : bool;
  dClient : option (list Byte.byte);
  dRequests : list Duration;
  dAttempts : nat
}.

(** The function [_discovery] gives to [run]:
      if (_stopped) fail with "we were stopped";
      sendRequest(GET_DATA_URL, ..., timeout)
        .then(if (_stopped) ready;
              if (!payload || getSize() == 0) fail with "no remote endpoint";
              _session.client = endpoint of the concatenated buffers; ready)
        .then_wrapped(if (_stopped) ready, else the future as it is)
    The attempt number selects the input of the surroundings.  The endpoint
    is kept as the URL it is resolved from; resolving it is the
    transport's. *)
Definition discoveryAttempt (env : nat -> attemptInput)
    (remaining : Z) (timeout : Duration) (st : Discovery)
  : future * Discovery :=
  let inp := env (dAttempts st) in
  let st0 := {| dStopped := dStopped st || stopBefore inp;
                dClient := dClient st;
                dRequests := dRequests st;
                dAttempts := S (dAttempts st) |} in
  if dStopped st0 then (Failed weWereStopped, st0)
  else
    let st1 := {| dStopped := stopDuring inp;
                  dClient := dClient st0;
                  dRequests := dRequests st0 ++ [timeout];
                  dAttempts := dAttempts st0 |} in
    let '(fut, st2) :=
      match reply inp with
      | RpcFailed e => (Failed e, st1)
      | RpcPayload p =>
          if dStopped st1 then (Ready, st1)
          else
            match p with
            | None => (Failed noRemoteEndpoint, st1)
            | Some bufs =>
                if (length (List.concat bufs) =? 0)%nat
                then (Failed noRemoteEndpoint, st1)
                else (Ready, {| dStopped := dStopped st1;
                                dClient := Some (List.concat bufs);
                                dRequests := dRequests st1;
                                dAttempts := dAttempts st1 |})
            end
      end in
    if dStopped st2 then (Ready, st2) else (fut, st2).

(** [Client::_discovery] on shard [myID] with [remotes] configured
    endpoints.  The driver is default-constructed (with whatever defaults
    [r0], [ra0], [s0]) and then set to 10 retries, 10 ms and rate 3. *)
Definition _discovery (r0 ra0 : Z) (s0 : Duration) (remotes myID : nat)
    (env : nat -> attemptInput) (st : Discovery)
  : option (future * Discovery) :=
  if (remotes <=? myID)%nat then Some (Failed noRemoteEndpointDefined, st)
  else
    option_map (fun r => (result r, world r))
      (run (discoveryAttempt env)
         (withRate 3 (withStartTimeout (msec 10)
            (withRetries 10 (newStrategy r0 ra0 s0))))
         st).

(** The client when [start] calls [_discovery]. *)
Definition discoveryStart : Discovery :=
  {| dStopped := false; dClient := None; dRequests := []; dAttempts := 0 |}.

(** The failure an attempt ends with when nothing stops the client and the
    transport fails (other than by shutting down) or answers without data:
    the attempts after which [run] tries again. *)
Definition retriedFailure (inp : attemptInput) : option exn :=
  if stopBefore inp || stopDuring inp then None
  else
    match reply inp with
    | RpcFailed DispatcherShutdown => None
    | RpcFailed e => Some e
    | RpcPayload None => Some noRemoteEndpoint
    | RpcPayload (Some bufs) =>
        if (length (List.concat bufs) =? 0)%nat then Some noRemoteEndpoint
        else None
    end.

(** The timeouts of the first [j] requests. *)
Definition discoveryTimeouts (j : nat) : list Duration :=
  map (fun k => msec 10 * factorial k) (seq 1 j).

(** The run of discovery after [j] attempts that were retried, the last of
    them having failed with [lastFailure]. *)
Definition afterRetries (j : nat) (lastFailure : exn) : RunState Discovery :=
  {| drv := {| _retries := 10; _try := Z.of_nat j; _rate := 3;
               _currentTimeout := msec 10 * factorial j;
               _success := false; _used := false |};
     world := {| dStopped := false; dClient := None;
                 dRequests := discoveryTimeouts j; dAttempts := j |};
     result := Failed lastFailure;
     calls := map (fun k => (10 - Z.of_nat k, msec 10 * factorial k))
                  (seq 1 j) |}.

(** The failure of the last of [j] retried attempts; the initial result of
    [run] before the first. *)
Definition lastFailure (e : nat -> exn) (j : nat) : exn :=
  match j with O => RequestTimeoutException | S i => e i end.

(** *** Concrete surroundings for discovery *)

(** A bootstrap endpoint that always answers with an empty payload. *)
Definition alwaysEmpty (i : nat) : attemptInput :=
  {| stopBefore := false; reply := RpcPayload (Some []); stopDuring := false |}.

(** A bootstrap endpoint that times out three times and then does [last]. *)
Definition afterThreeTimeouts (last : attemptInput) (i : nat) : attemptInput :=
  if (i <? 3)%nat
  then {| stopBefore := false; reply := RpcFailed RequestTimeoutException;
          stopDuring := false |}
  else last.

(** An answer in two buffers. *)
Definition urlInTwoBuffers : list (list Byte.byte) :=
  [[Byte.x74; Byte.x63; Byte.x70]; [Byte.x3a; Byte.x39]].

(** The run of discovery after [j] attempts, the client having been
    stopped before attempt [k + 1] (so that only the first [k] attempts
    sent a request). *)
Definition afterStop (k j : nat) : RunState Discovery :=
  {| drv := {| _retries := 10; _try := Z.of_nat j; _rate := 3;
               _currentTimeout := msec 10 * factorial j;
               _success := false; _used := false |};
     world := {| dStopped := true; dClient := None;
                 dRequests := discoveryTimeouts k; dAttempts := j |};
     result := Failed weWereStopped;
     calls := map (fun k => (10 - Z.of_nat k, msec 10 * factorial k))
                  (seq 1 j) |}.

(** *** Stale acks *)

(** The event is the warning for an ack that is too old. *)
Definition isAckTooOld (e : event) : bool :=
  match e with Warn (AckTooOld _ _ _) => true | _ => false end.

(** The default session after three requests and the ack for all three. *)
Definition threeAcked : Client :=
  finalOf [Sender 0; Sender 1; Sender 2; AckMsg 3 (ackOf 7 3 1536)]
    (startSession defaultConfig 7).
(** * Properties *)

(** ** Part III: the retry strategy *)

Lemma wrapS64_small (x : Z) : fitsS64 x -> wrapS64 x = x.
Proof.
  unfold fitsS64, wrapS64. intros H. rewrite Z.mod_small by lia. lia.
Qed.

Lemma factorial_pos (k : nat) : 0 < factorial k.
Proof. induction k as [|k IH]; cbn [factorial]; [lia | nia]. Qed.

Section RunProperties.

Context {W : Type}.
Variable func : Z -> Duration -> W -> future * W.

Lemma attempt_retries (s : RunState W) :
  _retries (drv (attempt func s)) = _retries (drv s).
Proof.
  unfold attempt. destruct (func _ _ _) as [fut w'].
  destruct fut as [|[]]; reflexivity.
Qed.

Lemma attempt_used (s : RunState W) :
  _used (drv (attempt func s)) = _used (drv s).
Proof.
  unfold attempt. destruct (func _ _ _) as [fut w'].
  destruct fut as [|[]]; reflexivity.
Qed.

Lemma attempt_try (s : RunState W) :
  _try (drv (attempt func s)) = _try (drv s) + 1 \/
  _try (drv (attempt func s)) = _retries (drv s).
Proof.
  unfold attempt. destruct (func _ _ _) as [fut w'].
  destruct fut as [|[]]; simpl; auto.
Qed.

Lemma attempt_timeout (s : RunState W) :
  _currentTimeout (drv (attempt func s)) =
  wrapS64 (_currentTimeout (drv s) * (_try (drv s) + 1)).
Proof.
  unfold attempt. destruct (func _ _ _) as [fut w'].
  destruct fut as [|[]]; reflexivity.
Qed.

Lemma attempt_calls (s : RunState W) :
  calls (attempt func s) =
  calls s ++ [(_retries (drv s) - (_try (drv s) + 1),
               wrapS64 (_currentTimeout (drv s) * (_try (drv s) + 1)))].
Proof.
  unfold attempt. destruct (func _ _ _) as [fut w'].
  destruct fut as [|[]]; reflexivity.
Qed.

Lemma loopDone_false (d : ExponentialBackoffStrategy) :
  loopDone d = false -> _success d = false /\ _try d < _retries d.
Proof.
  unfold loopDone. intros H. apply orb_false_iff in H as [Hs Hr].
  split; [assumption | lia].
Qed.

(** The bound [run] gives to the loop is large enough. *)
Lemma do_until_enough (fuel : nat) (s : RunState W) :
  (Z.to_nat (_retries (drv s) - _try (drv s)) <= fuel)%nat ->
  exists s', do_until func fuel s = Some s'.
Proof.
  revert s. induction fuel as [|fuel IH]; intros s Hfuel; simpl.
  - destruct (loopDone (drv s)) eqn:Hd; [eauto|].
    apply loopDone_false in Hd. lia.
  - destruct (loopDone (drv s)) eqn:Hd; [eauto|].
    apply loopDone_false in Hd. apply IH.
    rewrite attempt_retries.
    destruct (attempt_try s) as [-> | ->]; lia.
Qed.

(** The loop ends only in a state that satisfies its stop condition, and it
    leaves [_used] and [_retries] as they were. *)
Lemma do_until_stops (fuel : nat) (s s' : RunState W) :
  do_until func fuel s = Some s' ->
  loopDone (drv s') = true /\
  _used (drv s') = _used (drv s) /\
  _retries (drv s') = _retries (drv s).
Proof.
  revert s. induction fuel as [|fuel IH]; intros s; simpl.
  - destruct (loopDone (drv s)) eqn:Hd; [|discriminate].
    intros [= <-]. auto.
  - destruct (loopDone (drv s)) eqn:Hd.
    + intros [= <-]. auto.
    + intros H. apply IH in H as (H1 & H2 & H3).
      rewrite attempt_used in H2. rewrite attempt_retries in H3. auto.
Qed.

Lemma factorial_S (k : nat) :
  factorial (S k) = factorial k * (Z.of_nat k + 1).
Proof. cbn [factorial]. lia. Qed.

Lemma timeoutAt_S (start : Duration) (k : nat) :
  timeoutAt start (S k) = wrapS64 (timeoutAt start k * (Z.of_nat k + 1)).
Proof. cbn [timeoutAt]. f_equal. lia. Qed.

Lemma attempt_onSchedule (start : Duration) (retries : Z) (s : RunState W) :
  loopDone (drv s) = false ->
  onSchedule start retries s -> onSchedule start retries (attempt func s).
Proof.
  intros Hd (Hr & Ht & Htry & Hcalls).
  destruct Htry as [Htry | Hdone]; [|congruence].
  assert (Hlen : length (calls (attempt func s)) = S (length (calls s))).
  { rewrite attempt_calls, length_app. simpl. lia. }
  split; [rewrite attempt_retries; assumption|].
  split.
  { rewrite attempt_timeout, Hlen, timeoutAt_S, Ht, Htry. reflexivity. }
  split.
  { destruct (attempt_try s) as [E | E].
    - left. rewrite E, Hlen, Htry. lia.
    - right. unfold loopDone. rewrite attempt_retries, E.
      rewrite (proj2 (Z.leb_le _ _)) by lia. apply orb_true_r. }
  intros k rem t. rewrite attempt_calls.
  destruct (decide (k < length (calls s))%nat) as [Hk | Hk].
  - rewrite lookup_app_l by assumption. apply Hcalls.
  - apply Nat.nlt_ge in Hk. rewrite lookup_app_r by exact Hk.
    intros Heq. pose proof (lookup_lt_Some _ _ _ Heq) as Hlt. simpl in Hlt.
    assert (k = length (calls s)) as -> by lia.
    rewrite Nat.sub_diag in Heq. injection Heq as <- <-.
    rewrite timeoutAt_S, Ht, Htry, Hr. split; [reflexivity | lia].
Qed.

Lemma do_until_onSchedule (start : Duration) (retries : Z) (fuel : nat)
    (s s' : RunState W) :
  onSchedule start retries s ->
  do_until func fuel s = Some s' -> onSchedule start retries s'.
Proof.
  revert s. induction fuel as [|fuel IH]; intros s Hs; simpl.
  - destruct (loopDone (drv s)); [|discriminate]. intros [= <-]. assumption.
  - destruct (loopDone (drv s)) eqn:Hd.
    + intros [= <-]. assumption.
    + apply IH. apply attempt_onSchedule; assumption.
Qed.

Lemma attempt_rateBlind (s1 s2 : RunState W) :
  rateBlind s1 s2 -> rateBlind (attempt func s1) (attempt func s2).
Proof.
  destruct s1 as [[r1 t1 ra1 c1 su1 u1] w1 re1 ca1].
  destruct s2 as [[r2 t2 ra2 c2 su2 u2] w2 re2 ca2].
  unfold rateBlind; simpl. intros (-> & -> & -> & -> & -> & -> & -> & ->).
  unfold attempt; simpl. destruct (func _ _ _) as [fut w'].
  destruct fut as [|[]]; simpl; repeat split.
Qed.

Lemma do_until_rateBlind (fuel : nat) (s1 s2 s1' : RunState W) :
  rateBlind s1 s2 ->
  do_until func fuel s1 = Some s1' ->
  exists s2', do_until func fuel s2 = Some s2' /\ rateBlind s1' s2'.
Proof.
  revert s1 s2. induction fuel as [|fuel IH]; intros s1 s2 Hb; simpl;
    assert (Hd : loopDone (drv s1) = loopDone (drv s2))
      by (unfold loopDone; destruct Hb as (-> & -> & _ & -> & _); reflexivity);
    rewrite <- Hd; destruct (loopDone (drv s1)).
  - intros [= <-]. eauto.
  - discriminate.
  - intros [= <-]. eauto.
  - apply IH, attempt_rateBlind, Hb.
Qed.

(** The chain of setters used by the client's discovery gives the driver
    [newStrategy] builds from the same three values. *)
Lemma setters_newStrategy (retries rate : Z) (startTimeout : Duration)
    (r0 ra0 : Z) (s0 : Duration) :
  withRate rate (withStartTimeout startTimeout
    (withRetries retries (newStrategy r0 ra0 s0)))
  = newStrategy retries rate startTimeout.
Proof. reflexivity. Qed.

(** C4 (as the code has it).  A second [run] on the same driver does not
    call the operated function, and it fails with RequestTimeoutException,
    not with DuplicateExecutionException: [run] tests [_used] and never
    sets it. *)
Theorem second_run_is_not_duplicate (w : W) (startTimeout : Duration)
    (retries rate : Z) :
  exists r1 r2,
    run func (newStrategy retries rate startTimeout) w = Some r1 /\
    run func (drv r1) (world r1) = Some r2 /\
    _used (drv r1) = false /\
    calls r2 = [] /\
    result r2 = Failed RequestTimeoutException /\
    result r2 <> Failed DuplicateExecutionException.
Proof.
  unfold run at 1; simpl.
  set (s0 := {| drv := newStrategy retries rate startTimeout; world := w;
                result := Failed RequestTimeoutException; calls := [] |}).
  destruct (do_until_enough (Z.to_nat (retries - 0)) s0) as [r1 Hr1];
    [simpl; lia|].
  destruct (do_until_stops _ _ _ Hr1) as (Hdone & Hused & _).
  simpl in Hused.
  exists r1.
  exists {| drv := drv r1; world := world r1;
            result := Failed RequestTimeoutException; calls := [] |}.
  split; [exact Hr1|]. split.
  - unfold run. rewrite Hused.
    generalize (Z.to_nat (_retries (drv r1) - _try (drv r1))).
    intros [|n]; cbn [do_until drv]; rewrite Hdone; reflexivity.
  - simpl. repeat split; [exact Hused | discriminate].
Qed.

End RunProperties.

Example discovery_retry_timeouts :
  option_map (fun r => (map snd (calls r), result r))
    (run refuseThrice (newStrategy 10 3 (msec 10)) 0%nat)
  = Some ([msec 10; msec 20; msec 60; msec 240], Ready).
Proof. vm_compute. reflexivity. Qed.

(** The failing input of C4: a driver whose operated function succeeds at
    once, run twice. *)
Example second_run_example :
  let f := fun (_ : Z) (_ : Duration) (w : unit) => (Ready, w) in
  match run f (newStrategy 10 3 (msec 10)) tt with
  | Some r1 =>
      option_map (fun r2 => (result r2, calls r2)) (run f (drv r1) (world r1))
      = Some (Failed RequestTimeoutException, [])
  | None => False
  end.
Proof. vm_compute. reflexivity. Qed.

(** ** Part IV: the benchmark client *)

(** *** Booleans and machine integers *)

Ltac unbool :=
  repeat match goal with
  | H : (_ && _) = true |- _ => apply andb_true_iff in H as [? ?]
  | H : (_ <=? _) = true |- _ => apply Z.leb_le in H
  | H : (_ <? _) = true |- _ => apply Z.ltb_lt in H
  | H : (_ =? _) = true |- _ => apply Z.eqb_eq in H
  | H : (_ <=? _) = false |- _ => apply Z.leb_gt in H
  | H : (_ <? _) = false |- _ => apply Z.ltb_ge in H
  | H : (_ =? _) = false |- _ => apply Z.eqb_neq in H
  | H : negb _ = true |- _ => apply negb_true_iff in H
  | H : negb _ = false |- _ => apply negb_false_iff in H
  end.

Lemma u64b_range (x : Z) : u64b x = true <-> 0 <= x < 2 ^ 64.
Proof.
  unfold u64b. rewrite andb_true_iff, Z.leb_le, Z.ltb_lt. reflexivity.
Qed.

Lemma u32b_range (x : Z) : u32b x = true <-> 0 <= x < 2 ^ 32.
Proof.
  unfold u32b. rewrite andb_true_iff, Z.leb_le, Z.ltb_lt. reflexivity.
Qed.

Lemma wrap64_small (x : Z) : 0 <= x < 2 ^ 64 -> wrap64 x = x.
Proof. apply Z.mod_small. Qed.

Lemma wrap64_range (x : Z) : 0 <= wrap64 x < 2 ^ 64.
Proof. apply Z.mod_pos_bound. reflexivity. Qed.

Lemma u64b_wrap64 (x : Z) : u64b (wrap64 x) = true.
Proof. apply u64b_range, wrap64_range. Qed.

(** *** The latency loop *)

Lemma sampleLoop_empty fuel cfg ring now hi reqid :
  hi <= reqid -> sampleLoop fuel cfg ring now hi reqid = Ok [].
Proof.
  intros H. destruct fuel; simpl;
    rewrite (proj2 (Z.ltb_ge reqid hi)) by lia; reflexivity.
Qed.

(** With a ring of [pipelineCount] slots the loop runs to its end, and it
    samples the requests [reqid], [reqid + 1], ... up to [hi - 1] in turn. *)
Lemma sampleLoop_samples fuel cfg ring now hi reqid :
  0 < pipelineCount cfg ->
  length ring = Z.to_nat (pipelineCount cfg) ->
  0 <= reqid -> hi < 2 ^ 64 ->
  (Z.to_nat (hi - reqid) <= fuel)%nat ->
  sampleLoop fuel cfg ring now hi reqid
  = Ok (map (sampleOf cfg ring now) (seqZ reqid (hi - reqid))).
Proof.
  revert reqid. induction fuel as [|fuel IH]; intros reqid HP Hlen Hlo Hhi Hfuel.
  - rewrite sampleLoop_empty by lia.
    rewrite seqZ_nil by lia. reflexivity.
  - destruct (Z.ltb_spec reqid hi) as [Hlt | Hge].
    2:{ rewrite sampleLoop_empty by lia. rewrite seqZ_nil by lia. reflexivity. }
    cbn [sampleLoop]. rewrite (proj2 (Z.ltb_lt reqid hi)) by lia.
    rewrite (proj2 (Z.eqb_neq (pipelineCount cfg) 0)) by lia.
    assert (Hidx : 0 <= reqid mod pipelineCount cfg < pipelineCount cfg)
      by (apply Z.mod_pos_bound; lia).
    destruct (lookup_lt_is_Some_2 ring (Z.to_nat (reqid mod pipelineCount cfg)))
      as [issued Hissued]; [lia|].
    rewrite Hissued. rewrite wrap64_small by lia.
    rewrite IH by lia.
    rewrite (seqZ_cons reqid (hi - reqid)) by lia.
    cbn [map]. unfold sampleOf at 2. rewrite Hissued. simpl.
    replace (Z.succ reqid) with (reqid + 1) by lia.
    replace (Z.pred (hi - reqid)) with (hi - (reqid + 1)) by lia.
    reflexivity.
Qed.

(** *** The ACK observer, case by case *)

Lemma client_ok_ranges (c : Client) :
  client_ok c ->
  0 <= totalSize (_session c) < 2 ^ 64 /\
  0 <= totalCount (_session c) < 2 ^ 64 /\
  0 <= unackedSize (_session c) < 2 ^ 64 /\
  0 <= unackedCount (_session c) < 2 ^ 64 /\
  0 <= pipelineCount (config (_session c)) < 2 ^ 32 /\
  0 <= pipelineSize (config (_session c)) < 2 ^ 32 /\
  0 <= responseSize (config (_session c)) < 2 ^ 32.
Proof.
  intros (Hcfg & _ & H1 & H2 & H3 & H4 & _).
  unfold config_ok in Hcfg. unbool.
  rewrite u64b_range in H1, H2, H3, H4.
  rewrite u32b_range in *. tauto.
Qed.

Lemma ack_ok_ranges (a : Ack.t) :
  ack_ok a = true ->
  0 <= Ack.totalCount a < 2 ^ 64 /\ 0 <= Ack.totalSize a < 2 ^ 64.
Proof.
  unfold ack_ok. intros H. unbool. rewrite u64b_range in *. tauto.
Qed.

(** The latency loop of an accepted ack runs to its end. *)
Lemma accepted_sampleLoop now ack c :
  client_ok c -> ack_ok ack = true -> accepted c ack = true ->
  sampleLoop (Z.to_nat (Ack.totalCount ack - firstUnacked c))
    (config (_session c)) (_requestIssueTimes c) now
    (Ack.totalCount ack) (firstUnacked c)
  = Ok (map (sampleOf (config (_session c)) (_requestIssueTimes c) now)
            (sampledRequests c ack)).
Proof.
  intros Hok Hack Hacc.
  pose proof (client_ok_ranges c Hok) as (_ & HtC & _ & HuC & HP & _).
  pose proof (ack_ok_ranges ack Hack) as (HaC & _).
  destruct Hok as (_ & _ & _ & _ & _ & _ & Hlen & Hzero).
  unfold accepted in Hacc. unbool.
  pose proof (wrap64_range (totalCount (_session c) - unackedCount (_session c)))
    as Hfirst.
  fold (firstUnacked c) in Hfirst. unfold sampledRequests.
  destruct (decide (pipelineCount (config (_session c)) = 0)) as [HP0 | HP0].
  - destruct (Hzero HP0) as [Ht Hu].
    assert (Hf : firstUnacked c = 0)
      by (unfold firstUnacked; rewrite Ht, Hu; reflexivity).
    rewrite sampleLoop_empty by lia. rewrite seqZ_nil by lia. reflexivity.
  - apply sampleLoop_samples; lia.
Qed.

(** What the observer does with an ack that passes its three checks. *)
Lemma onAck_accepted now ack c :
  client_ok c -> ack_ok ack = true -> accepted c ack = true ->
  exists c' evs,
    onAck now {| payload := Some ack |} c = Ok (c', evs) /\
    _session c' =
      setCredit (_session c)
        (totalSize (_session c) - Ack.totalSize ack)
        (totalCount (_session c) - Ack.totalCount ack) /\
    _requestLatency c' =
      _requestLatency c ++
      map (fun r => snd (sampleOf (config (_session c))
                           (_requestIssueTimes c) now r))
          (sampledRequests c ack) /\
    _requestIssueTimes c' = _requestIssueTimes c /\
    _lastAckedTotal c' = _lastAckedTotal c /\
    _stopped c' = _stopped c /\
    _haveSendPromise c' = false /\
    evs = acceptedWarnings c ack ++
          map (fun r => RingRead (r mod pipelineCount (config (_session c))))
              (sampledRequests c ack) ++
          (if _haveSendPromise c then [SendPromSet] else []).
Proof.
  intros Hok Hack Hacc.
  pose proof (accepted_sampleLoop now ack c Hok Hack Hacc) as Hloop.
  pose proof (client_ok_ranges c Hok) as (HtS & HtC & _).
  pose proof (ack_ok_ranges ack Hack) as (HaC & HaS).
  unfold accepted in Hacc. unbool.
  unfold onAck. cbn [payload].
  rewrite (proj2 (Z.eqb_eq _ _)) by assumption. cbn [negb].
  rewrite (proj2 (Z.ltb_ge _ _)) by assumption.
  rewrite (proj2 (Z.ltb_ge (totalSize (_session c)) _)) by assumption.
  fold (firstUnacked c). rewrite Hloop.
  rewrite !wrap64_small by lia.
  rewrite !map_map. cbn [_haveSendPromise fst sampleOf].
  destruct (_haveSendPromise c) eqn:Hp.
  - eexists _, _. split; [reflexivity|].
    cbn [setHaveSendPromise _session _requestLatency _requestIssueTimes
         _lastAckedTotal _stopped _haveSendPromise].
    repeat split. unfold acceptedWarnings. rewrite <- !app_assoc. reflexivity.
  - eexists _, _. split; [reflexivity|].
    cbn [_session _requestLatency _requestIssueTimes
         _lastAckedTotal _stopped _haveSendPromise].
    repeat split.
    unfold acceptedWarnings. rewrite <- !app_assoc, app_nil_r. reflexivity.
Qed.

(** What the observer does with an ack that fails one of the three checks:
    it logs and returns. *)
Lemma onAck_dropped now ack c :
  accepted c ack = false ->
  exists ws, ws <> [] /\
    onAck now {| payload := Some ack |} c = Ok (c, map Warn ws).
Proof.
  unfold accepted, onAck. cbn [payload]. intros Hacc.
  destruct (Ack.sessionID ack =? sessionID (_session c)) eqn:Hsid; cbn [negb].
  2:{ eexists [_]. split; [discriminate | reflexivity]. }
  destruct (Z.ltb_spec (totalCount (_session c)) (Ack.totalCount ack))
    as [Hcnt | Hcnt].
  { eexists [_]. split; [discriminate | reflexivity]. }
  rewrite (proj2 (Z.leb_le _ _)) in Hacc by assumption.
  destruct (Z.ltb_spec (totalSize (_session c)) (Ack.totalSize ack))
    as [Hsz | Hsz].
  2:{ rewrite (proj2 (Z.leb_le _ _)) in Hacc by assumption. discriminate. }
  destruct (Ack.totalCount ack <=? _lastAckedTotal c).
  - eexists [_; _]. split; [discriminate | reflexivity].
  - eexists [_]. split; [discriminate | reflexivity].
Qed.

(** *** The invariant *)

Lemma startSession_ok cfg sid :
  config_ok cfg = true -> u64b sid = true -> client_ok (startSession cfg sid).
Proof.
  intros Hcfg Hsid. unfold client_ok, startSession; cbn.
  rewrite length_replicate. repeat split; auto.
Qed.

Lemma setHaveSendPromise_ok b c :
  client_ok c -> client_ok (setHaveSendPromise b c).
Proof. intros H. exact H. Qed.

Lemma setStopped_ok b c : client_ok c -> client_ok (setStopped b c).
Proof. intros H. exact H. Qed.

Lemma send_client_ok now c c' evs :
  client_ok c -> send now c = Ok (c', evs) -> client_ok c'.
Proof.
  intros (Hcfg & Hsid & _ & _ & _ & _ & Hlen & _). unfold send.
  destruct (negb _); [discriminate|].
  destruct (Z.eqb_spec (pipelineCount (config (_session c))) 0) as [|HP];
    [discriminate|].
  cbn [totalCount].
  destruct (_ !! _); [|discriminate].
  intros [= <- <-]. unfold client_ok; cbn.
  rewrite length_insert, !u64b_wrap64. repeat split; auto; contradiction.
Qed.

Lemma senderStep_client_ok now c c' evs :
  client_ok c -> senderStep now c = Ok (c', evs) -> client_ok c'.
Proof.
  intros Hok. unfold senderStep, loopBody.
  destruct (_stopped c); [intros [= <- <-]; assumption|].
  destruct (_haveSendPromise c) eqn:Hp; [intros [= <- <-]; assumption|].
  destruct (canSend c).
  - apply send_client_ok. assumption.
  - cbn. intros [= <- <-]. assumption.
Qed.

Lemma onTimer_client_ok c c' evs :
  client_ok c -> onTimer c = Ok (c', evs) -> client_ok c'.
Proof.
  intros Hok. unfold onTimer.
  destruct (_haveSendPromise _); intros [= <- <-]; assumption.
Qed.

Lemma onAck_client_ok now request c c' evs :
  client_ok c -> request_ok request = true ->
  onAck now request c = Ok (c', evs) -> client_ok c'.
Proof.
  intros Hok Hreq. destruct request as [[ack|]]; cbn in Hreq.
  2:{ cbn. intros [= <- <-]. assumption. }
  destruct (accepted c ack) eqn:Hacc.
  - destruct (onAck_accepted now ack c Hok Hreq Hacc)
      as (c1 & evs1 & -> & Hs & _ & Hring & _).
    intros [= <- <-].
    pose proof (client_ok_ranges c Hok) as (HtS & HtC & _).
    pose proof (ack_ok_ranges ack Hreq) as (HaC & HaS).
    unfold accepted in Hacc. unbool.
    destruct Hok as (Hcfg & Hsid & HuS & HuC & _ & _ & Hlen & Hzero).
    unfold client_ok. rewrite Hs, Hring. cbn.
    repeat split; auto; try (apply u64b_range; lia).
    all: destruct Hzero as [Ht Hu]; [assumption | lia].
  - destruct (onAck_dropped now ack c Hacc) as (ws & _ & ->).
    intros [= <- <-]. assumption.
Qed.

Lemma step_client_ok o c c' evs :
  client_ok c -> op_ok o = true -> step o c = Ok (c', evs) -> client_ok c'.
Proof.
  destruct o; cbn; intros Hok Ho.
  - apply senderStep_client_ok; assumption.
  - apply onAck_client_ok; assumption.
  - apply onTimer_client_ok; assumption.
Qed.

(** Inversion of one step of a schedule. *)
Lemma exec_cons_Ok o ops c c' evs :
  exec (o :: ops) c = Ok (c', evs) ->
  exists c1 evs1 evs2,
    step o c = Ok (c1, evs1) /\ exec ops c1 = Ok (c', evs2) /\
    evs = evs1 ++ evs2.
Proof.
  cbn [exec]. destruct (step o c) as [[c1 evs1]| |]; try discriminate.
  destruct (exec ops c1) as [[c2 evs2]| |] eqn:He; try discriminate.
  intros [= <- <-]. exists c1, evs1, evs2. auto.
Qed.

Lemma exec_client_ok ops c c' evs :
  client_ok c -> forallb op_ok ops = true ->
  exec ops c = Ok (c', evs) -> client_ok c'.
Proof.
  revert c evs. induction ops as [|o ops IH]; intros c evs Hok Hops.
  - cbn. intros [= <- <-]. assumption.
  - cbn in Hops. apply andb_true_iff in Hops as [Ho Hops].
    intros H. apply exec_cons_Ok in H as (c1 & evs1 & evs2 & H1 & H2 & _).
    eapply IH; [|exact Hops|exact H2].
    eapply step_client_ok; eassumption.
Qed.

(** Every state a session can be in satisfies the invariant. *)
Lemma reachable_ok cfg sid c : reachable cfg sid c -> client_ok c.
Proof.
  intros (Hcfg & Hsid & ops & evs & Hops & Hexec).
  eapply exec_client_ok; [|exact Hops|exact Hexec].
  apply startSession_ok; assumption.
Qed.

(** *** The configuration never changes *)

Lemma step_config o c c' evs :
  step o c = Ok (c', evs) -> config (_session c') = config (_session c).
Proof.
  destruct o as [now | now [[ack|]] | ]; cbn.
  - unfold senderStep, loopBody, send.
    repeat match goal with
           | |- context [if ?b then _ else _] => destruct b
           | |- context [match ?x !! ?i with _ => _ end] => destruct (x !! i)
           end; try discriminate; intros [= <- <-]; reflexivity.
  - unfold onAck. cbn [payload].
    destruct (sampleLoop _ _ _ _ _ _);
    repeat match goal with
           | |- context [if ?b then _ else _] => destruct b
           end; try discriminate; intros [= <- <-]; reflexivity.
  - intros [= <- <-]. reflexivity.
  - unfold onTimer. destruct (_haveSendPromise _); intros [= <- <-]; reflexivity.
Qed.

Lemma exec_config ops c c' evs :
  exec ops c = Ok (c', evs) -> config (_session c') = config (_session c).
Proof.
  revert c evs. induction ops as [|o ops IH]; intros c evs.
  - cbn. intros [= <- <-]. reflexivity.
  - intros H. apply exec_cons_Ok in H as (c1 & evs1 & evs2 & H1 & H2 & _).
    rewrite (IH _ _ H2). eapply step_config, H1.
Qed.

(** *** The credit bound *)

Lemma send_creditBound now c c' evs :
  client_ok c -> canSend c = true ->
  send now c = Ok (c', evs) -> creditBound c'.
Proof.
  intros Hok Hcan.
  pose proof (client_ok_ranges c Hok) as (_ & _ & HuS & HuC & HP & HS & HR).
  unfold canSend in Hcan. unbool. unfold send.
  destruct (negb _); [discriminate|].
  destruct (_ =? _); [discriminate|].
  destruct (_ !! _); [|discriminate].
  intros [= <- <-]. unfold creditBound; cbn.
  rewrite !wrap64_small by lia. lia.
Qed.

Lemma step_creditBound o c c' evs :
  client_ok c -> op_ok o = true -> notStale o c = true ->
  creditBound c -> step o c = Ok (c', evs) -> creditBound c'.
Proof.
  intros Hok Ho Hfresh Hb.
  destruct o as [now | now [[ack|]] | ];
    cbn [step op_ok request_ok payload notStale] in *.
  - unfold senderStep, loopBody.
    destruct (_stopped c); [intros [= <- <-]; assumption|].
    destruct (_haveSendPromise c); [intros [= <- <-]; assumption|].
    destruct (canSend c) eqn:Hcan.
    + apply send_creditBound; assumption.
    + cbn. intros [= <- <-]. assumption.
  - destruct (accepted c ack) eqn:Hacc.
    + destruct (onAck_accepted now ack c Hok Ho Hacc)
        as (c1 & evs1 & -> & Hs & _).
      intros [= <- <-]. cbn in Hfresh. unfold fresh in Hfresh. unbool.
      destruct Hb as [HbC HbS].
      unfold creditBound. rewrite Hs. cbn. lia.
    + destruct (onAck_dropped now ack c Hacc) as (ws & _ & ->).
      intros [= <- <-]. assumption.
  - intros [= <- <-]. assumption.
  - unfold onTimer. destruct (_haveSendPromise _); intros [= <- <-]; assumption.
Qed.

Lemma exec_creditBound ops c c' evs :
  client_ok c -> forallb op_ok ops = true -> noStaleAcks ops c = true ->
  creditBound c -> exec ops c = Ok (c', evs) -> creditBound c'.
Proof.
  revert c evs. induction ops as [|o ops IH]; intros c evs Hok Hops Hfresh Hb.
  - cbn. intros [= <- <-]. assumption.
  - cbn in Hops. apply andb_true_iff in Hops as [Ho Hops].
    intros H. apply exec_cons_Ok in H as (c1 & evs1 & evs2 & H1 & H2 & _).
    cbn [noStaleAcks] in Hfresh. rewrite H1 in Hfresh.
    apply andb_true_iff in Hfresh as [Hf1 Hf2].
    eapply IH; [| exact Hops | exact Hf2 | | exact H2].
    + eapply step_client_ok; eassumption.
    + eapply step_creditBound; eassumption.
Qed.

(** C1 (amended).  Along every schedule of sender turns, acks and timer
    expiry in which no accepted ack goes back behind the totals that are
    acknowledged already, the session keeps [unackedCount <= pipelineCount],
    and [unackedSize] stays within [pipelineSize] or passes it by less than
    the size of one request. *)
Theorem credit_bound_without_stale_acks cfg sid ops c evs :
  config_ok cfg = true -> u64b sid = true ->
  forallb op_ok ops = true ->
  noStaleAcks ops (startSession cfg sid) = true ->
  exec ops (startSession cfg sid) = Ok (c, evs) ->
  unackedCount (_session c) <= pipelineCount cfg /\
  (unackedSize (_session c) <= pipelineSize cfg \/
   unackedSize (_session c) < pipelineSize cfg + responseSize cfg).
Proof.
  intros Hcfg Hsid Hops Hfresh Hexec.
  pose proof (exec_config _ _ _ _ Hexec) as Hc. cbn in Hc. rewrite <- Hc.
  eapply exec_creditBound; [| exact Hops | exact Hfresh | | exact Hexec].
  - apply startSession_ok; assumption.
  - unfold creditBound; cbn. unfold config_ok in Hcfg. unbool.
    rewrite u32b_range in *. lia.
Qed.

Lemma credit_bound_without_stale_acks_witness :
  config_ok defaultConfig = true /\
  noStaleAcks pipelinedOps (startSession defaultConfig 7) = true /\
  unackedCount (_session (finalOf pipelinedOps (startSession defaultConfig 7)))
    <= pipelineCount defaultConfig /\
  (unackedSize (_session (finalOf pipelinedOps (startSession defaultConfig 7)))
     <= pipelineSize defaultConfig \/
   unackedSize (_session (finalOf pipelinedOps (startSession defaultConfig 7)))
     < pipelineSize defaultConfig + responseSize defaultConfig).
Proof.
  split; [reflexivity|]. split; [reflexivity|].
  apply (credit_bound_without_stale_acks defaultConfig 7 pipelinedOps
           (finalOf pipelinedOps (startSession defaultConfig 7))
           (eventsOf pipelinedOps (startSession defaultConfig 7)));
    reflexivity.
Defined.

(** The two runs that break the bound as the claim has it. *)
Lemma overshoot_run :
  match exec overshootOps (startSession overshootConfig 7) with
  | Ok (c, _) =>
      unackedSize (_session c) = 1049000 /\
      pipelineSize overshootConfig = 1048576
  | _ => False
  end.
Proof. vm_compute. split; reflexivity. Qed.

Lemma replay_run :
  match exec replayOps (startSession replayConfig 7) with
  | Ok (c, _) =>
      unackedCount (_session c) = 3 /\ pipelineCount replayConfig = 2
  | _ => False
  end.
Proof. vm_compute. split; reflexivity. Qed.

(** C1 (as stated) fails.  With requests of 1000 bytes and a credit of one
    MiB, 1049 sends leave 1049000 bytes unacknowledged; with a pipeline of
    two, an old ack delivered again leaves three requests unacknowledged. *)
Lemma credit_bound_fails :
  (exists c, reachable overshootConfig 7 c /\
     ~ (unackedCount (_session c) <= pipelineCount overshootConfig /\
        unackedSize (_session c) <= pipelineSize overshootConfig)) /\
  (exists c, reachable replayConfig 7 c /\
     ~ (unackedCount (_session c) <= pipelineCount replayConfig /\
        unackedSize (_session c) <= pipelineSize replayConfig)).
Proof.
  split.
  - pose proof overshoot_run as H.
    destruct (exec overshootOps (startSession overshootConfig 7))
      as [[c evs]| |] eqn:E; try contradiction.
    exists c. split.
    + split; [reflexivity|]. split; [reflexivity|].
      exists overshootOps, evs. split; [reflexivity | exact E].
    + destruct H as [-> ->]. lia.
  - pose proof replay_run as H.
    destruct (exec replayOps (startSession replayConfig 7))
      as [[c evs]| |] eqn:E; try contradiction.
    exists c. split.
    + split; [reflexivity|]. split; [reflexivity|].
      exists replayOps, evs. split; [reflexivity | exact E].
    + destruct H as [-> ->]. lia.
Qed.

Lemma twoInFlight_ok : client_ok twoInFlight.
Proof.
  unfold client_ok. vm_compute. repeat split; try reflexivity.
  all: discriminate.
Qed.

(** C2.  After the observer has processed an ack that passes the session,
    count and size checks, [totalCount - unackedCount] is the ack's
    [totalCount] and [totalSize - unackedSize] is the ack's [totalSize]. *)
Theorem accepted_ack_sets_acknowledged_totals now ack c :
  client_ok c -> ack_ok ack = true -> accepted c ack = true ->
  exists c' evs,
    onAck now {| payload := Some ack |} c = Ok (c', evs) /\
    totalCount (_session c') - unackedCount (_session c') = Ack.totalCount ack /\
    totalSize (_session c') - unackedSize (_session c') = Ack.totalSize ack.
Proof.
  intros Hok Hack Hacc.
  destruct (onAck_accepted now ack c Hok Hack Hacc)
    as (c' & evs & Hrun & Hs & _).
  exists c', evs. split; [exact Hrun|]. rewrite Hs. cbn. lia.
Qed.

Lemma accepted_ack_sets_acknowledged_totals_witness :
  accepted twoInFlight (ackRecord 7 1 512) = true /\
  exists c' evs,
    onAck 9 {| payload := Some (ackRecord 7 1 512) |} twoInFlight
      = Ok (c', evs) /\
    totalCount (_session c') - unackedCount (_session c') = 1 /\
    totalSize (_session c') - unackedSize (_session c') = 512.
Proof.
  split; [reflexivity|].
  apply (accepted_ack_sets_acknowledged_totals 9 (ackRecord 7 1 512)
           twoInFlight twoInFlight_ok); reflexivity.
Defined.

(** *** [_lastAckedTotal] *)

Lemma step_lastAckedTotal o c c' evs :
  step o c = Ok (c', evs) -> _lastAckedTotal c' = _lastAckedTotal c.
Proof.
  destruct o as [now | now [[ack|]] | ]; cbn.
  - unfold senderStep, loopBody, send.
    repeat match goal with
           | |- context [if ?b then _ else _] => destruct b
           | |- context [match ?x !! ?i with _ => _ end] => destruct (x !! i)
           end; try discriminate; intros [= <- <-]; reflexivity.
  - unfold onAck. cbn [payload].
    destruct (sampleLoop _ _ _ _ _ _);
    repeat match goal with
           | |- context [if ?b then _ else _] => destruct b
           end; try discriminate; intros [= <- <-]; reflexivity.
  - intros [= <- <-]. reflexivity.
  - unfold onTimer. destruct (_haveSendPromise _); intros [= <- <-]; reflexivity.
Qed.

Lemma exec_lastAckedTotal ops c c' evs :
  exec ops c = Ok (c', evs) -> _lastAckedTotal c' = _lastAckedTotal c.
Proof.
  revert c evs. induction ops as [|o ops IH]; intros c evs.
  - cbn. intros [= <- <-]. reflexivity.
  - intros H. apply exec_cons_Ok in H as (c1 & evs1 & evs2 & H1 & H2 & _).
    rewrite (IH _ _ H2). eapply step_lastAckedTotal, H1.
Qed.

(** C5 (as the code has it).  [_lastAckedTotal] is zero at the end of every
    schedule: no step assigns it.  In the default session, after one
    request and the ack that covers it (an ack the observer accepts, with
    [totalCount = 1]), it is still zero. *)
Theorem lastAckedTotal_never_updated :
  (forall cfg sid ops,
     _lastAckedTotal (finalOf ops (startSession cfg sid)) = 0) /\
  (let c1 := finalOf [Sender 0] (startSession defaultConfig 7) in
   let c2 := finalOf [Sender 0; AckMsg 1 (ackOf 7 1 512)]
               (startSession defaultConfig 7) in
   accepted c1 (ackRecord 7 1 512) = true /\
   unackedCount (_session c1) = 1 /\ unackedCount (_session c2) = 0 /\
   _lastAckedTotal c2 = 0).
Proof.
  split.
  - intros cfg sid ops. unfold finalOf.
    destruct (exec ops (startSession cfg sid)) as [[c evs]| |] eqn:E;
      try reflexivity.
    apply exec_lastAckedTotal in E. exact E.
  - vm_compute. repeat split.
Qed.

(** C9.  An ACK message without a payload is ignored: the observer returns
    the client as it was and does nothing to the outside (no warning, no
    sample, no ring access, no fulfilled promise). *)
Theorem null_payload_ignored (now : TimePoint) (c : Client) :
  onAck now {| payload := None |} c = Ok (c, []).
Proof. reflexivity. Qed.

(** *** The checksum *)

(** Below 2^32 acknowledged requests the expected checksum is the
    triangular number itself. *)
Lemma expectedChecksum_triangular (ack : Ack.t) :
  0 <= Ack.totalCount ack < 2 ^ 32 ->
  expectedChecksum ack = Ack.totalCount ack * (Ack.totalCount ack + 1) / 2.
Proof.
  intros H. unfold expectedChecksum.
  rewrite (wrap64_small (Ack.totalCount ack + 1)) by lia.
  rewrite wrap64_small; [reflexivity|]. nia.
Qed.

(** C6 (as stated) fails.  In the default session with three requests in
    flight, the ack for all three with checksum 99 is accepted and resets
    the credit, though the checksum of three requests is 6. *)
Lemma checksum_law_fails :
  reachable defaultConfig 7 threeInFlight /\
  ack_ok badChecksumAck = true /\
  accepted threeInFlight badChecksumAck = true /\
  unackedCount (_session threeInFlight) = 3 /\
  (exists c' evs,
     onAck 9 {| payload := Some badChecksumAck |} threeInFlight
       = Ok (c', evs) /\
     unackedCount (_session c') = 0 /\ unackedSize (_session c') = 0) /\
  Ack.checksum badChecksumAck <>
    Ack.totalCount badChecksumAck * (Ack.totalCount badChecksumAck + 1) / 2.
Proof.
  split.
  { split; [reflexivity|]. split; [reflexivity|].
    exists [Sender 0; Sender 1; Sender 2]. eexists.
    split; [reflexivity | vm_compute; reflexivity]. }
  split; [reflexivity|]. split; [reflexivity|]. split; [reflexivity|].
  split; [|vm_compute; discriminate].
  eexists _, _. split; [vm_compute; reflexivity|]. split; reflexivity.
Qed.

(** C6 (amended).  The observer checks the checksum of every ack that
    passes the session, count and size checks against
    [totalCount * (totalCount + 1) / 2] in 64-bit arithmetic; a mismatch is
    logged, exactly then, and the ack updates the credit all the same. *)
Theorem checksum_mismatch_only_warns now ack c :
  client_ok c -> ack_ok ack = true -> accepted c ack = true ->
  exists c' evs,
    onAck now {| payload := Some ack |} c = Ok (c', evs) /\
    unackedCount (_session c') =
      totalCount (_session c) - Ack.totalCount ack /\
    unackedSize (_session c') =
      totalSize (_session c) - Ack.totalSize ack /\
    (In (Warn (ChecksumMismatch (Ack.checksum ack) (expectedChecksum ack))) evs
     <-> Ack.checksum ack <> expectedChecksum ack) /\
    (Ack.totalCount ack < 2 ^ 32 ->
     expectedChecksum ack = Ack.totalCount ack * (Ack.totalCount ack + 1) / 2).
Proof.
  intros Hok Hack Hacc.
  destruct (onAck_accepted now ack c Hok Hack Hacc)
    as (c' & evs & Hrun & Hs & _ & _ & _ & _ & _ & Hevs).
  exists c', evs. split; [exact Hrun|]. rewrite Hs. cbn.
  split; [reflexivity|]. split; [reflexivity|]. split.
  - rewrite Hevs. unfold acceptedWarnings. rewrite !in_app_iff, in_map_iff.
    split.
    + intros [[H | H] | [(r & H & _) | H]].
      * destruct (_ <=? _); cbn in H; [destruct H as [H|[]]|destruct H].
        discriminate.
      * destruct (Z.eqb_spec (Ack.checksum ack) (expectedChecksum ack));
          cbn in H; [destruct H | assumption].
      * discriminate.
      * destruct (_haveSendPromise c); cbn in H; [destruct H as [H|[]]|destruct H].
        discriminate.
    + intros Hne. left. right.
      rewrite (proj2 (Z.eqb_neq _ _)) by assumption. cbn. auto.
  - intros Hlt. apply expectedChecksum_triangular.
    pose proof (ack_ok_ranges ack Hack). lia.
Qed.

Lemma threeInFlight_ok : client_ok threeInFlight.
Proof.
  unfold client_ok. vm_compute. repeat split; try reflexivity.
  all: discriminate.
Qed.

Lemma checksum_mismatch_only_warns_witness :
  ack_ok badChecksumAck = true /\
  accepted threeInFlight badChecksumAck = true /\
  exists c' evs,
    onAck 9 {| payload := Some badChecksumAck |} threeInFlight
      = Ok (c', evs) /\
    unackedCount (_session c') =
      totalCount (_session threeInFlight) - Ack.totalCount badChecksumAck /\
    unackedSize (_session c') =
      totalSize (_session threeInFlight) - Ack.totalSize badChecksumAck /\
    (In (Warn (ChecksumMismatch (Ack.checksum badChecksumAck)
                                (expectedChecksum badChecksumAck))) evs
     <-> Ack.checksum badChecksumAck <> expectedChecksum badChecksumAck) /\
    (Ack.totalCount badChecksumAck < 2 ^ 32 ->
     expectedChecksum badChecksumAck =
     Ack.totalCount badChecksumAck * (Ack.totalCount badChecksumAck + 1) / 2).
Proof.
  split; [reflexivity|]. split; [reflexivity|].
  apply (checksum_mismatch_only_warns 9 badChecksumAck threeInFlight
           threeInFlight_ok); reflexivity.
Defined.

(** *** Sending *)

(** With credit and a request larger than its header, [send] goes through
    and moves the four counters by one request. *)
Lemma send_Ok now c :
  client_ok c -> canSend c = true ->
  padding < responseSize (config (_session c)) ->
  exists c1 evs1,
    send now c = Ok (c1, evs1) /\
    _session c1 =
      {| config := config (_session c);
         sessionID := sessionID (_session c);
         totalSize := wrap64 (totalSize (_session c)
                              + responseSize (config (_session c)));
         totalCount := wrap64 (totalCount (_session c) + 1);
         unackedSize := unackedSize (_session c)
                        + responseSize (config (_session c));
         unackedCount := unackedCount (_session c) + 1 |}.
Proof.
  intros Hok Hcan Hpad.
  pose proof (client_ok_ranges c Hok) as (_ & _ & HuS & HuC & HP & HS & HR).
  destruct Hok as (_ & _ & _ & _ & _ & _ & Hlen & _).
  unfold canSend in Hcan. unbool. unfold send.
  rewrite (proj2 (Z.ltb_lt _ _)) by assumption. cbn [negb].
  rewrite (proj2 (Z.eqb_neq _ 0)) by lia. cbn [totalCount].
  set (idx := wrap64 (totalCount (_session c) + 1)
              mod pipelineCount (config (_session c))).
  assert (Hidx : 0 <= idx < pipelineCount (config (_session c)))
    by (apply Z.mod_pos_bound; lia).
  destruct (lookup_lt_is_Some_2 (_requestIssueTimes c) (Z.to_nat idx))
    as [t Ht]; [lia|].
  rewrite Ht. eexists _, _. split; [reflexivity|]. cbn.
  rewrite (wrap64_small (unackedSize _ + _)) by lia.
  rewrite (wrap64_small (unackedCount _ + _)) by lia.
  reflexivity.
Qed.

(** C7 (as stated) fails.  In the default session with one request in
    flight, a second send followed by the ack for both leaves nothing
    unacknowledged, while one request of 512 bytes was unacknowledged
    before that send. *)
Lemma credit_round_trip_fails :
  reachable defaultConfig 7 oneInFlight /\
  canSend oneInFlight = true /\
  exists c1 evs1 c2 evs2,
    send 1 oneInFlight = Ok (c1, evs1) /\
    onAck 2 {| payload :=
                 Some (ackRecord 7 (totalCount (_session c1))
                                   (totalSize (_session c1))) |} c1
      = Ok (c2, evs2) /\
    (unackedCount (_session c2), unackedSize (_session c2)) = (0, 0) /\
    (unackedCount (_session oneInFlight), unackedSize (_session oneInFlight))
      = (1, 512).
Proof.
  split.
  { split; [reflexivity|]. split; [reflexivity|].
    exists [Sender 0]. eexists.
    split; [reflexivity | vm_compute; reflexivity]. }
  split; [reflexivity|].
  eexists _, _, _, _. split; [vm_compute; reflexivity|].
  split; [vm_compute; reflexivity|]. split; reflexivity.
Qed.

(** C7 (amended).  One send followed by an accepted ack whose totals are
    the totals after that send leaves nothing unacknowledged:
    [(unackedCount, unackedSize)] becomes [(0, 0)], which is the pair from
    before the send exactly when nothing was unacknowledged then. *)
Theorem send_then_covering_ack_clears_credit now now' ack c :
  client_ok c -> canSend c = true ->
  padding < responseSize (config (_session c)) ->
  ack_ok ack = true ->
  Ack.sessionID ack = sessionID (_session c) ->
  Ack.totalCount ack = wrap64 (totalCount (_session c) + 1) ->
  Ack.totalSize ack =
    wrap64 (totalSize (_session c) + responseSize (config (_session c))) ->
  exists c1 evs1 c2 evs2,
    send now c = Ok (c1, evs1) /\
    totalCount (_session c1) = Ack.totalCount ack /\
    totalSize (_session c1) = Ack.totalSize ack /\
    onAck now' {| payload := Some ack |} c1 = Ok (c2, evs2) /\
    unackedCount (_session c2) = 0 /\ unackedSize (_session c2) = 0 /\
    ((unackedCount (_session c2) = unackedCount (_session c) /\
      unackedSize (_session c2) = unackedSize (_session c))
     <-> (unackedCount (_session c) = 0 /\ unackedSize (_session c) = 0)).
Proof.
  intros Hok Hcan Hpad Hack Hsid Hcnt Hsz.
  destruct (send_Ok now c Hok Hcan Hpad) as (c1 & evs1 & Hsend & Hs1).
  assert (Hok1 : client_ok c1) by (eapply send_client_ok; eassumption).
  assert (Hacc : accepted c1 ack = true).
  { unfold accepted. rewrite Hs1; cbn. rewrite Hsid, Hcnt, Hsz.
    rewrite Z.eqb_refl, !Z.leb_refl. reflexivity. }
  destruct (onAck_accepted now' ack c1 Hok1 Hack Hacc)
    as (c2 & evs2 & Hrun & Hs2 & _).
  exists c1, evs1, c2, evs2.
  split; [exact Hsend|].
  split; [rewrite Hs1, Hcnt; reflexivity|].
  split; [rewrite Hs1, Hsz; reflexivity|].
  split; [exact Hrun|].
  rewrite Hs2, Hs1. cbn [setCredit unackedCount unackedSize totalCount totalSize].
  rewrite Hcnt, Hsz, !Z.sub_diag.
  split; [reflexivity|]. split; [reflexivity|].
  split; intros [H1 H2]; split; congruence.
Qed.

Lemma oneInFlight_ok : client_ok oneInFlight.
Proof.
  unfold client_ok. vm_compute. repeat split; try reflexivity.
  all: discriminate.
Qed.

Lemma send_then_covering_ack_clears_credit_witness :
  canSend oneInFlight = true /\
  exists c1 evs1 c2 evs2,
    send 1 oneInFlight = Ok (c1, evs1) /\
    totalCount (_session c1) = Ack.totalCount (ackRecord 7 2 1024) /\
    totalSize (_session c1) = Ack.totalSize (ackRecord 7 2 1024) /\
    onAck 2 {| payload := Some (ackRecord 7 2 1024) |} c1 = Ok (c2, evs2) /\
    unackedCount (_session c2) = 0 /\ unackedSize (_session c2) = 0 /\
    ((unackedCount (_session c2) = unackedCount (_session oneInFlight) /\
      unackedSize (_session c2) = unackedSize (_session oneInFlight))
     <-> (unackedCount (_session oneInFlight) = 0 /\
          unackedSize (_session oneInFlight) = 0)).
Proof.
  split; [reflexivity|].
  apply (send_then_covering_ack_clears_credit 1 2 (ackRecord 7 2 1024)
           oneInFlight oneInFlight_ok); reflexivity.
Defined.

(** *** Dropped and stale acks *)

Lemma rejected_not_accepted ack c :
  Ack.sessionID ack <> sessionID (_session c) \/
  totalCount (_session c) < Ack.totalCount ack \/
  totalSize (_session c) < Ack.totalSize ack ->
  accepted c ack = false.
Proof.
  unfold accepted. intros [H | [H | H]].
  - rewrite (proj2 (Z.eqb_neq _ _)) by assumption. reflexivity.
  - rewrite (proj2 (Z.leb_gt (Ack.totalCount ack) _)) by assumption.
    apply andb_false_iff. left. apply andb_false_r.
  - rewrite (proj2 (Z.leb_gt (Ack.totalSize ack) _)) by assumption.
    apply andb_false_r.
Qed.

Lemma reachable_lastAckedTotal cfg sid c :
  reachable cfg sid c -> _lastAckedTotal c = 0.
Proof.
  intros (_ & _ & ops & evs & _ & Hexec).
  apply exec_lastAckedTotal in Hexec. exact Hexec.
Qed.

(** C8 (as the code has it).  An ack with a foreign session id, or with a
    [totalCount] or a [totalSize] beyond the session's, is dropped: the
    observer returns the client unchanged (session, histogram, pending
    promise and all) and does nothing but log.  Every other ack is
    processed in full in every state a session can be in: the credit is
    recomputed from it and a pending promise is fulfilled.  The warning for
    an ack that is too old, however, is logged only for [totalCount = 0]:
    an ack that goes back behind the acknowledged total is processed
    without it, raises [unackedCount] and records no sample. *)
Theorem invalid_ack_dropped_stale_ack_unlogged cfg sid now ack c :
  (Ack.sessionID ack <> sessionID (_session c) \/
   totalCount (_session c) < Ack.totalCount ack \/
   totalSize (_session c) < Ack.totalSize ack ->
   exists ws, ws <> [] /\
     onAck now {| payload := Some ack |} c = Ok (c, map Warn ws)) /\
  (reachable cfg sid c -> ack_ok ack = true -> accepted c ack = true ->
   exists c' evs,
     onAck now {| payload := Some ack |} c = Ok (c', evs) /\
     unackedCount (_session c') =
       totalCount (_session c) - Ack.totalCount ack /\
     unackedSize (_session c') =
       totalSize (_session c) - Ack.totalSize ack /\
     _haveSendPromise c' = false /\
     (_haveSendPromise c = true -> In SendPromSet evs) /\
     ((exists e, In e evs /\ isAckTooOld e = true)
      <-> Ack.totalCount ack = 0) /\
     (Ack.totalCount ack
        < totalCount (_session c) - unackedCount (_session c) ->
      unackedCount (_session c) < unackedCount (_session c') /\
      _requestLatency c' = _requestLatency c)).
Proof.
  split.
  - intros H. apply onAck_dropped, rejected_not_accepted, H.
  - intros Hreach Hack Hacc.
    pose proof (reachable_ok _ _ _ Hreach) as Hok.
    pose proof (reachable_lastAckedTotal _ _ _ Hreach) as Hlast.
    pose proof (client_ok_ranges c Hok) as (_ & HtC & _ & HuC & _).
    pose proof (ack_ok_ranges ack Hack) as (HaC & _).
    destruct (onAck_accepted now ack c Hok Hack Hacc)
      as (c' & evs & Hrun & Hs & Hlat & _ & _ & _ & Hp & Hevs).
    exists c', evs. split; [exact Hrun|].
    rewrite Hs. cbn [setCredit unackedCount unackedSize].
    split; [reflexivity|]. split; [reflexivity|]. split; [exact Hp|].
    split.
    { intros Hhave. rewrite Hevs, Hhave, !in_app_iff.
      right. right. left. reflexivity. }
    split.
    { rewrite Hevs. unfold acceptedWarnings. rewrite Hlast. split.
      - intros (e & Hin & He).
        rewrite !in_app_iff, in_map_iff in Hin.
        destruct Hin as [[Hin | Hin] | [(r & <- & _) | Hin]].
        + destruct (Z.leb_spec (Ack.totalCount ack) 0) as [Hle | Hgt];
            [lia | destruct Hin].
        + destruct (negb _); cbn in Hin; [destruct Hin as [<- | []]|destruct Hin].
          discriminate.
        + discriminate.
        + destruct (_haveSendPromise c); cbn in Hin;
            [destruct Hin as [<- | []]|destruct Hin].
          discriminate.
      - intros Hzero. eexists. split.
        + rewrite !in_app_iff. left. left.
          rewrite (proj2 (Z.leb_le _ _)) by lia. left. reflexivity.
        + reflexivity. }
    intros Hstale. split; [lia|].
    rewrite Hlat. unfold sampledRequests, firstUnacked.
    rewrite wrap64_small by lia. rewrite seqZ_nil by lia.
    cbn. apply app_nil_r.
Qed.

Lemma threeAcked_reachable : reachable defaultConfig 7 threeAcked.
Proof.
  split; [reflexivity|]. split; [reflexivity|].
  exists [Sender 0; Sender 1; Sender 2; AckMsg 3 (ackOf 7 3 1536)].
  eexists. split; [reflexivity | vm_compute; reflexivity].
Defined.

Lemma invalid_ack_dropped_stale_ack_unlogged_witness :
  (exists ws, ws <> [] /\
     onAck 9 {| payload := Some (ackRecord 8 1 512) |} oneInFlight
       = Ok (oneInFlight, map Warn ws)) /\
  accepted threeAcked (ackRecord 7 2 1024) = true /\
  unackedCount (_session threeAcked) = 0 /\
  (exists c' evs,
     onAck 9 {| payload := Some (ackRecord 7 2 1024) |} threeAcked
       = Ok (c', evs) /\
     unackedCount (_session c') =
       totalCount (_session threeAcked) - Ack.totalCount (ackRecord 7 2 1024) /\
     unackedSize (_session c') =
       totalSize (_session threeAcked) - Ack.totalSize (ackRecord 7 2 1024) /\
     _haveSendPromise c' = false /\
     (_haveSendPromise threeAcked = true -> In SendPromSet evs) /\
     ((exists e, In e evs /\ isAckTooOld e = true)
      <-> Ack.totalCount (ackRecord 7 2 1024) = 0) /\
     (Ack.totalCount (ackRecord 7 2 1024)
        < totalCount (_session threeAcked)
          - unackedCount (_session threeAcked) ->
      unackedCount (_session threeAcked) < unackedCount (_session c') /\
      _requestLatency c' = _requestLatency threeAcked)).
Proof.
  split.
  - apply (proj1 (invalid_ack_dropped_stale_ack_unlogged defaultConfig 7
                    9 (ackRecord 8 1 512) oneInFlight)).
    left. vm_compute. discriminate.
  - split; [reflexivity|]. split; [reflexivity|].
    apply (proj2 (invalid_ack_dropped_stale_ack_unlogged defaultConfig 7
                    9 (ackRecord 7 2 1024) threeAcked)
                 threeAcked_reachable); reflexivity.
Defined.

(** The failing input of C8 evaluated: the ack for two requests after the
    ack for three is processed with no event at all, and one request
    counts as unacknowledged again. *)
Example stale_ack_example :
  match onAck 9 {| payload := Some (ackRecord 7 2 1024) |} threeAcked with
  | Ok (c', evs) => evs = [] /\ unackedCount (_session c') = 1
  | _ => False
  end.
Proof. vm_compute. split; reflexivity. Qed.

(** *** The latency samples *)

Lemma ringReads_app (evs1 evs2 : list event) :
  ringReads (evs1 ++ evs2) = ringReads evs1 ++ ringReads evs2.
Proof. apply omap_app. Qed.

Lemma ringReads_reads (f : Z -> Z) (l : list Z) :
  ringReads (map (fun r => RingRead (f r)) l) = map f l.
Proof. induction l as [|r l IH]; cbn; [reflexivity | f_equal; exact IH]. Qed.

Lemma ringReads_acceptedWarnings c ack : ringReads (acceptedWarnings c ack) = [].
Proof.
  unfold acceptedWarnings.
  destruct (_ <=? _); destruct (negb _); reflexivity.
Qed.

(** C10.  For an ack that the observer processes, the latency loop records
    one sample for each request id from [totalCount - unackedCount] (in
    64-bit arithmetic) up to [ack.totalCount - 1]: that many samples when
    the difference is positive and none otherwise, so none for an ack that
    covers acknowledged requests only.  The slot read for request [reqid]
    is [reqid mod pipelineCount], which lies in [0, pipelineCount). *)
Theorem ack_latency_samples now ack c :
  client_ok c -> ack_ok ack = true -> accepted c ack = true ->
  exists c' evs,
    onAck now {| payload := Some ack |} c = Ok (c', evs) /\
    _requestLatency c' =
      _requestLatency c ++
      map (fun r => snd (sampleOf (config (_session c))
                           (_requestIssueTimes c) now r))
          (sampledRequests c ack) /\
    length (_requestLatency c') =
      (length (_requestLatency c)
       + Z.to_nat (Ack.totalCount ack - firstUnacked c))%nat /\
    (Ack.totalCount ack <= firstUnacked c ->
     _requestLatency c' = _requestLatency c) /\
    ringReads evs =
      map (fun r => r mod pipelineCount (config (_session c)))
          (sampledRequests c ack) /\
    (forall idx, In idx (ringReads evs) ->
       0 <= idx < pipelineCount (config (_session c))) /\
    (unackedCount (_session c) <= totalCount (_session c) ->
     firstUnacked c = totalCount (_session c) - unackedCount (_session c)).
Proof.
  intros Hok Hack Hacc.
  destruct (onAck_accepted now ack c Hok Hack Hacc)
    as (c' & evs & Hrun & _ & Hlat & _ & _ & _ & _ & Hevs).
  pose proof (client_ok_ranges c Hok) as (_ & HtC & _ & HuC & HP & _).
  assert (Hreads : ringReads evs =
            map (fun r => r mod pipelineCount (config (_session c)))
                (sampledRequests c ack)).
  { rewrite Hevs, !ringReads_app, ringReads_acceptedWarnings, ringReads_reads.
    destruct (_haveSendPromise c); cbn; rewrite app_nil_r; reflexivity. }
  exists c', evs. split; [exact Hrun|]. split; [exact Hlat|]. split.
  { rewrite Hlat, length_app, length_map. unfold sampledRequests.
    rewrite length_seqZ. reflexivity. }
  split.
  { intros Hle. rewrite Hlat. unfold sampledRequests.
    rewrite seqZ_nil by lia. cbn. apply app_nil_r. }
  split; [exact Hreads|]. split.
  - intros idx. rewrite Hreads, in_map_iff. intros (r & <- & Hin).
    apply Z.mod_pos_bound.
    destruct (decide (pipelineCount (config (_session c)) = 0)) as [HP0|]; [|lia].
    exfalso. destruct Hok as (_ & _ & _ & _ & _ & _ & _ & Hzero).
    destruct (Hzero HP0) as [Ht Hu].
    pose proof (ack_ok_ranges ack Hack) as (HaC & _).
    unfold accepted in Hacc. unbool.
    unfold sampledRequests, firstUnacked in Hin.
    rewrite Ht, Hu in Hin. change (wrap64 (0 - 0)) with 0 in Hin.
    rewrite seqZ_nil in Hin by lia.
    destruct Hin.
  - intros Hle. unfold firstUnacked. apply wrap64_small. lia.
Qed.

Lemma ack_latency_samples_witness :
  accepted threeInFlight (ackRecord 7 2 1024) = true /\
  exists c' evs,
    onAck 9 {| payload := Some (ackRecord 7 2 1024) |} threeInFlight
      = Ok (c', evs) /\
    _requestLatency c' =
      _requestLatency threeInFlight ++
      map (fun r => snd (sampleOf (config (_session threeInFlight))
                           (_requestIssueTimes threeInFlight) 9 r))
          (sampledRequests threeInFlight (ackRecord 7 2 1024)) /\
    length (_requestLatency c') =
      (length (_requestLatency threeInFlight)
       + Z.to_nat (Ack.totalCount (ackRecord 7 2 1024)
                   - firstUnacked threeInFlight))%nat /\
    (Ack.totalCount (ackRecord 7 2 1024) <= firstUnacked threeInFlight ->
     _requestLatency c' = _requestLatency threeInFlight) /\
    ringReads evs =
      map (fun r => r mod pipelineCount (config (_session threeInFlight)))
          (sampledRequests threeInFlight (ackRecord 7 2 1024)) /\
    (forall idx, In idx (ringReads evs) ->
       0 <= idx < pipelineCount (config (_session threeInFlight))) /\
    (unackedCount (_session threeInFlight)
       <= totalCount (_session threeInFlight) ->
     firstUnacked threeInFlight =
     totalCount (_session threeInFlight)
       - unackedCount (_session threeInFlight)).
Proof.
  split; [reflexivity|].
  apply (ack_latency_samples 9 (ackRecord 7 2 1024) threeInFlight
           threeInFlight_ok); reflexivity.
Defined.

(** * Further properties *)

(** ** The retry strategy *)

Section RunMore.

Context {W : Type}.
Variable func : Z -> Duration -> W -> future * W.

(** The calls never outnumber the tries, and the tries never pass the
    retries. *)
Lemma attempt_bounded (retries : Z) (s : RunState W) :
  loopDone (drv s) = false ->
  _retries (drv s) = retries ->
  Z.of_nat (length (calls s)) <= _try (drv s) <= Z.max 0 retries ->
  Z.of_nat (length (calls (attempt func s))) <= _try (drv (attempt func s))
    <= Z.max 0 retries.
Proof.
  intros Hd Hr Hb. apply loopDone_false in Hd as [_ Hlt].
  rewrite attempt_calls, length_app. cbn [length].
  destruct (attempt_try func s) as [-> | ->]; lia.
Qed.

Lemma do_until_bounded (retries : Z) (fuel : nat) (s s' : RunState W) :
  _retries (drv s) = retries ->
  Z.of_nat (length (calls s)) <= _try (drv s) <= Z.max 0 retries ->
  do_until func fuel s = Some s' ->
  Z.of_nat (length (calls s')) <= _try (drv s') <= Z.max 0 retries.
Proof.
  revert s. induction fuel as [|fuel IH]; intros s Hr Hb; simpl.
  - destruct (loopDone (drv s)); [|discriminate]. intros [= <-]. exact Hb.
  - destruct (loopDone (drv s)) eqn:Hd.
    + intros [= <-]. exact Hb.
    + apply IH.
      * rewrite attempt_retries. exact Hr.
      * apply attempt_bounded; assumption.
Qed.

(** X1.  A fresh driver calls the operated function at most [retries]
    times; with no retries (zero or negative) it does not call it at all,
    leaves the world alone and fails with RequestTimeoutException. *)
Theorem run_makes_at_most_retries_calls (w : W) (startTimeout : Duration)
    (retries rate : Z) :
  exists r,
    run func (newStrategy retries rate startTimeout) w = Some r /\
    (length (calls r) <= Z.to_nat retries)%nat /\
    (retries <= 0 ->
     calls r = [] /\ world r = w /\
     result r = Failed RequestTimeoutException).
Proof.
  unfold run; cbn [_used newStrategy _retries _try].
  set (s0 := {| drv := newStrategy retries rate startTimeout; world := w;
                result := Failed RequestTimeoutException; calls := [] |}).
  destruct (do_until_enough func (Z.to_nat (retries - 0)) s0) as [r Hr];
    [simpl; lia|].
  exists r. split; [exact Hr|]. split.
  - assert (Hb : Z.of_nat (length (calls r)) <= _try (drv r)
                    <= Z.max 0 retries).
    { eapply (do_until_bounded retries); [| | exact Hr]; cbn; [reflexivity | lia]. }
    lia.
  - intros Hle. replace (Z.to_nat (retries - 0)) with 0%nat in Hr by lia.
    cbn in Hr. unfold loopDone in Hr. cbn in Hr.
    rewrite (proj2 (Z.leb_le retries 0)) in Hr by lia.
    injection Hr as <-. auto.
Qed.

(** One attempt of the logged function, field by field. *)
Lemma attempt_logged (s : RunState (W * list future)) :
  exists fut w',
    world (attempt (logged func) s) = (w', snd (world s) ++ [fut]) /\
    result (attempt (logged func) s) = outcomeOf (Some fut) /\
    _success (drv (attempt (logged func) s))
      = negb (failed (outcomeOf (Some fut))) /\
    _try (drv (attempt (logged func) s)) =
      (if isShutdown fut then _retries (drv s) else _try (drv s) + 1) /\
    unlogged (attempt (logged func) s) = attempt func (unlogged s).
Proof.
  unfold attempt, logged, unlogged. cbn [drv world result calls].
  destruct (func _ _ _) as [fut w']. exists fut, w'.
  destruct fut as [|[]]; cbn; repeat split.
Qed.

Lemma do_until_unlogged (fuel : nat) (s : RunState (W * list future)) :
  do_until func fuel (unlogged s)
  = option_map unlogged (do_until (logged func) fuel s).
Proof.
  revert s. induction fuel as [|fuel IH]; intros s; cbn [do_until];
    change (drv (unlogged s)) with (drv s); destruct (loopDone (drv s));
    try reflexivity.
  destruct (attempt_logged s) as (fut & w' & _ & _ & _ & _ & <-).
  apply IH.
Qed.

Lemma retryable_outcome (fut : future) :
  retryable fut = true ->
  isShutdown fut = false /\ failed (outcomeOf (Some fut)) = true.
Proof. destruct fut as [|[]]; cbn; intros; try discriminate; auto. Qed.

Lemma not_retryable (fut : future) :
  retryable fut = false -> fut = Ready \/ fut = Failed DispatcherShutdown.
Proof. destruct fut as [|[]]; cbn; intros; try discriminate; auto. Qed.

Lemma attempt_stopsAtFirst (retries : Z) (s : RunState (W * list future)) :
  loopDone (drv s) = false ->
  stopsAtFirst retries s -> stopsAtFirst retries (attempt (logged func) s).
Proof.
  intros Hd (Hr & Hlen & Hres & Hinit & Hgo & _).
  destruct (Hgo Hd) as [Hlast Htry]. clear Hgo.
  pose proof (loopDone_false _ Hd) as [_ Hlt].
  destruct (attempt_logged s) as (fut & w' & Hw & Hres' & Hsucc & Htry' & _).
  unfold stopsAtFirst. rewrite Hw. cbn [snd].
  rewrite attempt_retries, attempt_calls, !length_app, last_snoc. cbn [length].
  split; [exact Hr|]. split; [lia|]. split; [exact Hres'|]. split.
  { intros i f Hi Hlt'.
    rewrite lookup_app_l in Hi by lia.
    destruct (decide (S i < length (snd (world s)))%nat) as [Hin | Hin].
    - eapply Hinit; eassumption.
    - apply Hlast. rewrite last_lookup.
      replace (Nat.pred (length (snd (world s)))) with i by lia. exact Hi. }
  unfold loopDone. rewrite attempt_retries, Hsucc, Htry'.
  destruct (retryable fut) eqn:Hfut.
  - destruct (retryable_outcome fut Hfut) as [-> ->]. cbn [negb orb].
    split.
    + intros _. split; [intros f [= <-]; exact Hfut | lia].
    + intros Hdone. apply Z.leb_le in Hdone. right. right. lia.
  - split.
    + intros Hgo. exfalso.
      destruct (not_retryable fut Hfut) as [-> | ->]; cbn in Hgo;
        [discriminate|].
      rewrite (proj2 (Z.leb_le _ _)) in Hgo by lia. discriminate.
    + intros _. destruct (not_retryable fut Hfut) as [-> | ->]; auto.
Qed.

Lemma do_until_stopsAtFirst (retries : Z) (fuel : nat)
    (s s' : RunState (W * list future)) :
  stopsAtFirst retries s ->
  do_until (logged func) fuel s = Some s' -> stopsAtFirst retries s'.
Proof.
  revert s. induction fuel as [|fuel IH]; intros s Hs; simpl.
  - destruct (loopDone (drv s)); [|discriminate]. intros [= <-]. assumption.
  - destruct (loopDone (drv s)) eqn:Hd.
    + intros [= <-]. assumption.
    + apply IH. apply attempt_stopsAtFirst; assumption.
Qed.

(** Where the products fit their 64 bits, the timeout of attempt [k] is the
    start timeout times [k!]. *)
Lemma timeoutAt_factorial (start : Duration) (k : nat) :
  fitsS64 (start * factorial k) ->
  timeoutAt start k = start * factorial k.
Proof.
  induction k as [|k IH]; intros Hfit.
  - cbn. lia.
  - rewrite timeoutAt_S. rewrite factorial_S in Hfit |- *.
    pose proof (factorial_pos k) as Hpos.
    rewrite IH by (unfold fitsS64 in *; nia).
    rewrite wrapS64_small; [lia|].
    unfold fitsS64 in *. nia.
Qed.

(** C3 (amended).  Backoff schedule.  For a start timeout whose product by
    24 fits the 64-bit tick count and at least four retries, [run] makes a
    first call; if the first three calls fail (other than by a shutdown of
    the dispatcher) it makes a fourth, and the timeouts of these four calls
    are the start timeout times 1, 2, 6 and 24.  Every call gets the
    current timeout multiplied by its own number on 64 bits, and the
    remaining retries; the configured rate changes neither the calls nor
    the outcome. *)
Theorem backoff_schedule (w : W) (startTimeout : Duration) (retries rate : Z) :
  4 <= retries ->
  fitsS64 (startTimeout * 24) ->
  exists r rl,
    run func (newStrategy retries rate startTimeout) w = Some r /\
    run (logged func) (newStrategy retries rate startTimeout) (w, [])
      = Some rl /\
    unlogged rl = r /\
    (forall k rem t, calls r !! k = Some (rem, t) ->
       t = timeoutAt startTimeout (S k) /\ rem = retries - Z.of_nat (S k)) /\
    (forall k rem t, (k < 4)%nat -> calls r !! k = Some (rem, t) ->
       t = startTimeout * factorial (S k)) /\
    (1 <= length (calls r))%nat /\
    ((forall i f, (i < 3)%nat -> snd (world rl) !! i = Some f ->
        retryable f = true) ->
     (4 <= length (calls r))%nat /\
     take 4 (map snd (calls r)) =
       [startTimeout * 1; startTimeout * 2; startTimeout * 6;
        startTimeout * 24]) /\
    (forall rate', exists r',
       run func (newStrategy retries rate' startTimeout) w = Some r' /\
       calls r' = calls r /\ result r' = result r /\ world r' = world r).
Proof.
  intros Hretries Hfit. unfold run; cbn [_used newStrategy _retries _try].
  set (sl := {| drv := newStrategy retries rate startTimeout; world := (w, []);
                result := Failed RequestTimeoutException; calls := [] |}).
  set (s0 := {| drv := newStrategy retries rate startTimeout; world := w;
                result := Failed RequestTimeoutException; calls := [] |}).
  destruct (do_until_enough (logged func) (Z.to_nat (retries - 0)) sl)
    as [rl Hrl]; [simpl; lia|].
  assert (Hr : do_until func (Z.to_nat (retries - 0)) s0 = Some (unlogged rl)).
  { change s0 with (unlogged sl). rewrite do_until_unlogged, Hrl. reflexivity. }
  exists (unlogged rl), rl.
  split; [exact Hr|]. split; [exact Hrl|]. split; [reflexivity|].
  (* the schedule *)
  assert (Hs : onSchedule startTimeout retries (unlogged rl)).
  { eapply do_until_onSchedule; [|exact Hr].
    unfold onSchedule, s0; simpl. repeat split; try lia; auto.
    all: rewrite lookup_nil in H; discriminate. }
  destruct Hs as (_ & _ & _ & Hcalls).
  (* the stop condition *)
  assert (Hstop : stopsAtFirst retries rl).
  { eapply do_until_stopsAtFirst; [|exact Hrl].
    unfold stopsAtFirst, sl, loopDone; cbn.
    split; [reflexivity|]. split; [reflexivity|]. split; [reflexivity|].
    split; [intros i f Hi; rewrite lookup_nil in Hi; discriminate|].
    split.
    - intros _. split; [intros f Hf; discriminate | reflexivity].
    - intros Hle. apply Z.leb_le in Hle. right. right. lia. }
  destruct (do_until_stops _ _ _ _ Hrl) as (Hdone & _).
  destruct Hstop as (_ & Hlen & _ & _ & _ & Hend).
  specialize (Hend Hdone). change (calls (unlogged rl)) with (calls rl) in *.
  assert (Hfits : forall k, (k < 4)%nat ->
            timeoutAt startTimeout (S k) = startTimeout * factorial (S k)).
  { intros k Hk. apply timeoutAt_factorial. unfold fitsS64 in *.
    destruct k as [|[|[|[|k]]]]; cbn; lia. }
  split; [exact Hcalls|]. split.
  { intros k rem t Hk Hlook. destruct (Hcalls k rem t Hlook) as [-> _].
    apply Hfits, Hk. }
  assert (Hlast : forall f, list.last (snd (world rl)) = Some f ->
            snd (world rl) !! Nat.pred (length (calls rl)) = Some f /\
            (1 <= length (calls rl))%nat).
  { intros f Hf. rewrite last_lookup, Hlen in Hf. split; [exact Hf|].
    apply lookup_lt_Some in Hf. lia. }
  split.
  { destruct Hend as [Hf | [Hf | Hn]]; [apply Hlast in Hf; tauto.. | lia]. }
  split.
  - intros Hthree.
    assert (H4 : (4 <= length (calls rl))%nat).
    { destruct (decide (4 <= length (calls rl))%nat) as [|Hshort]; [assumption|].
      exfalso.
      destruct Hend as [Hf | [Hf | Hn]]; [| | lia];
        destruct (Hlast _ Hf) as [Hlook Hpos];
        apply Hthree in Hlook; [discriminate | lia | discriminate | lia]. }
    split; [exact H4|].
    destruct (calls rl) as [|[r1 t1] [|[r2 t2] [|[r3 t3] [|[r4 t4] rest]]]]
      eqn:Hc; simpl in H4; try lia.
    destruct (Hcalls 0%nat r1 t1 eq_refl) as [-> _].
    destruct (Hcalls 1%nat r2 t2 eq_refl) as [-> _].
    destruct (Hcalls 2%nat r3 t3 eq_refl) as [-> _].
    destruct (Hcalls 3%nat r4 t4 eq_refl) as [-> _].
    rewrite !Hfits by lia. reflexivity.
  - intros rate'.
    destruct (do_until_rateBlind func (Z.to_nat (retries - 0)) s0
                {| drv := newStrategy retries rate' startTimeout; world := w;
                   result := Failed RequestTimeoutException; calls := [] |}
                (unlogged rl))
      as (r' & Hr' & Hb); [unfold rateBlind; simpl; tauto | exact Hr |].
    exists r'. split; [exact Hr'|].
    destruct Hb as (_ & _ & _ & _ & _ & Hw & Hres & Hc). auto.
Qed.

(** X2.  [run] calls the operated function until it first succeeds, first
    fails with DispatcherShutdown, or has been called [retries] times, and
    it returns the future of the last call, with DispatcherShutdown turned
    into RequestTimeoutException (RequestTimeoutException also when there
    was no call).  Recording the returned futures changes nothing of the
    run. *)
Theorem run_returns_last_outcome (w : W) (startTimeout : Duration)
    (retries rate : Z) :
  exists r rl,
    run func (newStrategy retries rate startTimeout) w = Some r /\
    run (logged func) (newStrategy retries rate startTimeout) (w, [])
      = Some rl /\
    unlogged rl = r /\
    let log := snd (world rl) in
    length log = length (calls r) /\
    result r = outcomeOf (list.last log) /\
    (forall i f, log !! i = Some f -> (S i < length log)%nat ->
       retryable f = true) /\
    (list.last log = Some Ready \/
     list.last log = Some (Failed DispatcherShutdown) \/
     length log = Z.to_nat retries).
Proof.
  unfold run; cbn [_used newStrategy _retries _try].
  set (s0 := {| drv := newStrategy retries rate startTimeout; world := (w, []);
                result := Failed RequestTimeoutException; calls := [] |}).
  destruct (do_until_enough (logged func) (Z.to_nat (retries - 0)) s0)
    as [rl Hrl]; [simpl; lia|].
  exists (unlogged rl), rl. split.
  { change {| drv := newStrategy retries rate startTimeout; world := w;
              result := Failed RequestTimeoutException; calls := [] |}
      with (unlogged s0).
    rewrite do_until_unlogged, Hrl. reflexivity. }
  split; [exact Hrl|]. split; [reflexivity|].
  assert (Hs : stopsAtFirst retries rl).
  { eapply do_until_stopsAtFirst; [|exact Hrl].
    unfold stopsAtFirst, s0, loopDone; cbn.
    split; [reflexivity|]. split; [reflexivity|]. split; [reflexivity|].
    split; [intros i f Hi; rewrite lookup_nil in Hi; discriminate|].
    split.
    - intros _. split; [intros f Hf; discriminate | reflexivity].
    - intros Hle. apply Z.leb_le in Hle. right. right. lia. }
  destruct (do_until_stops _ _ _ _ Hrl) as (Hdone & _).
  destruct Hs as (_ & Hlen & Hres & Hinit & _ & Hstop).
  cbn zeta. change (calls (unlogged rl)) with (calls rl).
  change (result (unlogged rl)) with (result rl). auto.
Qed.

End RunMore.

Lemma backoff_schedule_witness :
  4 <= 10 /\ fitsS64 (msec 10 * 24) /\
  exists r,
    run refuseThrice (newStrategy 10 3 (msec 10)) 0%nat = Some r /\
    (4 <= length (calls r))%nat /\
    take 4 (map snd (calls r)) =
      [msec 10 * 1; msec 10 * 2; msec 10 * 6; msec 10 * 24].
Proof.
  assert (H1 : 4 <= 10) by lia.
  assert (H2 : fitsS64 (msec 10 * 24))
    by (vm_compute; split; [discriminate | reflexivity]).
  split; [exact H1|]. split; [exact H2|].
  destruct (backoff_schedule refuseThrice 0%nat (msec 10) 10 3 H1 H2)
    as (r & rl & Hr & Hrl & _ & _ & _ & _ & Hfour & _).
  exists r. split; [exact Hr|]. apply Hfour.
  vm_compute in Hrl. injection Hrl as <-.
  intros i f Hi. destruct i as [|[|[|i]]]; cbn; try lia; intros [= <-];
    reflexivity.
Defined.

(** C3 (as stated) fails.  A start timeout of 4 * 10^18 ns fits the tick
    count, and so does twice that; the product by 3 of the third attempt
    does not, and the third and fourth timeouts are the wrapped words, not
    6 and 24 times the start timeout. *)
Lemma backoff_schedule_overflows :
  fitsS64 4000000000000000000 /\ 4 <= 4 /\
  exists r,
    run alwaysTimesOut (newStrategy 4 3 4000000000000000000) tt = Some r /\
    map snd (calls r) =
      [4000000000000000000; 8000000000000000000;
       5553255926290448384; 3766279631452241920] /\
    map snd (calls r) <>
      [4000000000000000000 * 1; 4000000000000000000 * 2;
       4000000000000000000 * 6; 4000000000000000000 * 24].
Proof.
  split; [vm_compute; split; [discriminate | reflexivity]|].
  split; [lia|].
  eexists. split; [vm_compute; reflexivity|].
  split; [reflexivity | vm_compute; discriminate].
Qed.

(** ** The client *)

(** *** What one step does to the totals *)

Lemma sentRequests_app (evs1 evs2 : list event) :
  sentRequests (evs1 ++ evs2) = sentRequests evs1 ++ sentRequests evs2.
Proof. apply omap_app. Qed.

Lemma sentRequests_none (evs : list event) :
  (forall sid cnt bytes, ~ In (SendRequest sid cnt bytes) evs) ->
  sentRequests evs = [].
Proof.
  induction evs as [|e evs IH]; intros H; [reflexivity|].
  assert (IH' : sentRequests evs = [])
    by (apply IH; intros sid cnt bytes Hin; eapply H; right; exact Hin).
  destruct e; try exact IH'. exfalso. eapply H. left. reflexivity.
Qed.

(** The events of the observer: warnings, ring reads and the promise. *)
Lemma onAck_events now request c c' evs :
  onAck now request c = Ok (c', evs) ->
  forall e, In e evs ->
    (exists w, e = Warn w) \/ (exists idx, e = RingRead idx) \/ e = SendPromSet.
Proof.
  unfold onAck. destruct (payload request) as [ack|].
  2:{ intros [= <- <-] e []. }
  destruct (sampleLoop _ _ _ _ _ _) as [samples| |];
    repeat match goal with
           | |- context [if ?b then _ else _] => destruct b
           end; try discriminate; intros [= <- <-] e H;
    repeat first [ apply in_app_or in H as [H | H]
                 | apply in_map_iff in H as (? & <- & _)
                 | destruct H as [<- | H]
                 | destruct H; fail ];
    eauto.
Qed.

Lemma onAck_sentRequests now request c c' evs :
  onAck now request c = Ok (c', evs) -> sentRequests evs = [].
Proof.
  intros H. apply sentRequests_none. intros sid cnt bytes Hin.
  destruct (onAck_events _ _ _ _ _ H _ Hin) as [[w Hw] | [[i Hi] | Hp]];
    discriminate.
Qed.

(** The observer leaves the totals, the session id, the ring and the stop
    flag alone. *)
Lemma onAck_keeps now request c c' evs :
  onAck now request c = Ok (c', evs) ->
  totalCount (_session c') = totalCount (_session c) /\
  totalSize (_session c') = totalSize (_session c) /\
  sessionID (_session c') = sessionID (_session c) /\
  _requestIssueTimes c' = _requestIssueTimes c /\
  _stopped c' = _stopped c.
Proof.
  unfold onAck. destruct (payload request) as [ack|].
  2:{ intros [= <- <-]. auto. }
  destruct (sampleLoop _ _ _ _ _ _) as [samples| |];
    repeat match goal with
           | |- context [if ?b then _ else _] => destruct b
           end; try discriminate; intros [= <- <-]; cbn; auto.
Qed.

(** A turn that sends moves the totals by one request and hands one
    request to the transport; every other step leaves the totals alone and
    hands nothing over. *)
Lemma step_sends o c c' evs :
  step o c = Ok (c', evs) ->
  sessionID (_session c') = sessionID (_session c) /\
  if sends o c then
    totalCount (_session c') = wrap64 (totalCount (_session c) + 1) /\
    totalSize (_session c') =
      wrap64 (totalSize (_session c) + responseSize (config (_session c))) /\
    _stopped c' = false /\
    sentRequests evs =
      [(sessionID (_session c), wrap64 (totalCount (_session c) + 1),
        responseSize (config (_session c)) - padding)]
  else
    totalCount (_session c') = totalCount (_session c) /\
    totalSize (_session c') = totalSize (_session c) /\
    _requestIssueTimes c' = _requestIssueTimes c /\
    (_stopped c = true -> _stopped c' = true) /\
    sentRequests evs = [].
Proof.
  destruct o as [now | now request | ]; cbn [step sends].
  - unfold senderStep, loopBody.
    destruct (_stopped c) eqn:Hs; cbn [negb andb].
    { intros [= <- <-]. repeat split; auto. }
    destruct (_haveSendPromise c) eqn:Hp; cbn [negb andb].
    { intros [= <- <-]. rewrite Hs. repeat split; auto; discriminate. }
    destruct (canSend c).
    + unfold send. destruct (negb _); [discriminate|].
      destruct (_ =? _); [discriminate|]. destruct (_ !! _); [|discriminate].
      intros [= <- <-]. cbn. rewrite Hs. repeat split; auto.
    + cbn. intros [= <- <-]. cbn. repeat split; auto; discriminate.
  - intros H. pose proof (onAck_keeps _ _ _ _ _ H) as (H1 & H2 & H3 & H4 & H5).
    rewrite (onAck_sentRequests _ _ _ _ _ H), H5. repeat split; auto.
  - unfold onTimer. cbn.
    destruct (_haveSendPromise c); intros [= <- <-]; cbn; repeat split; auto.
Qed.

(** *** Totals and request numbers *)

Lemma map_seqZ_shift {A : Type} (f g : Z -> A) (k : nat) (m : Z) :
  (forall i, f (i + 1) = g i) ->
  map f (seqZ (m + 1) (Z.of_nat k)) = map g (seqZ m (Z.of_nat k)).
Proof.
  intros Hfg. revert m. induction k as [|k IH]; intros m.
  - rewrite !seqZ_nil by lia. reflexivity.
  - rewrite !(seqZ_cons _ (Z.of_nat (S k))) by lia. cbn [map].
    replace (Z.pred (Z.of_nat (S k))) with (Z.of_nat k) by lia.
    rewrite Hfg. f_equal.
    replace (Z.succ (m + 1)) with (Z.succ m + 1) by lia. apply IH.
Qed.

Lemma wrap64_add_l (a b : Z) : wrap64 (wrap64 a + b) = wrap64 (a + b).
Proof. unfold wrap64. apply Zplus_mod_idemp_l. Qed.

(** Along a schedule the totals advance by the requests handed to the
    transport, and these carry the session id and consecutive numbers. *)
Lemma exec_accounting ops c c' evs :
  exec ops c = Ok (c', evs) ->
  0 <= totalCount (_session c) < 2 ^ 64 ->
  0 <= totalSize (_session c) < 2 ^ 64 ->
  let n := length (sentRequests evs) in
  totalCount (_session c') = wrap64 (totalCount (_session c) + Z.of_nat n) /\
  totalSize (_session c') =
    wrap64 (totalSize (_session c)
            + Z.of_nat n * responseSize (config (_session c))) /\
  sessionID (_session c') = sessionID (_session c) /\
  sentRequests evs =
    map (fun k => (sessionID (_session c),
                   wrap64 (totalCount (_session c) + k),
                   responseSize (config (_session c)) - padding))
        (seqZ 1 (Z.of_nat n)).
Proof.
  revert c evs. induction ops as [|o ops IH]; intros c evs.
  - cbn. intros [= <- <-] HC HS. cbn.
    rewrite !Z.add_0_r, !wrap64_small by lia. auto.
  - intros H HC HS.
    apply exec_cons_Ok in H as (c1 & evs1 & evs2 & H1 & H2 & ->).
    pose proof (step_config _ _ _ _ H1) as Hcfg.
    pose proof (step_sends _ _ _ _ H1) as [Hsid Hstep].
    rewrite sentRequests_app.
    destruct (sends o c).
    + destruct Hstep as (HC1 & HS1 & _ & Hreq).
      specialize (IH c1 evs2 H2).
      rewrite HC1, HS1, Hsid, Hcfg in IH.
      destruct (IH (wrap64_range _) (wrap64_range _)) as (IC & IS & Isid & Ireq).
      rewrite Hreq. cbn [app length].
      set (n := length (sentRequests evs2)) in *.
      rewrite wrap64_add_l in IC, IS.
      split; [rewrite IC; f_equal; lia|].
      split; [rewrite IS; f_equal; lia|].
      split; [exact Isid|].
      rewrite (seqZ_cons 1 (Z.of_nat (S n))) by lia. cbn [map].
      replace (Z.pred (Z.of_nat (S n))) with (Z.of_nat n) by lia.
      f_equal. rewrite Ireq.
      symmetry. apply (map_seqZ_shift _ _ n 1).
      intros i. rewrite wrap64_add_l. do 2 f_equal. f_equal. lia.
    + destruct Hstep as (HC1 & HS1 & _ & _ & Hreq).
      specialize (IH c1 evs2 H2).
      rewrite HC1, HS1, Hsid, Hcfg in IH.
      rewrite Hreq. cbn [app]. apply IH; assumption.
Qed.

(** X3.  In every session, the total count is the number of requests
    handed to the transport and the total size is that number times the
    request size (both on 64 bits): acks, the timer and a parked or stopped
    sender never move the totals. *)
Theorem totals_count_the_sends cfg sid ops c evs :
  exec ops (startSession cfg sid) = Ok (c, evs) ->
  totalCount (_session c)
    = wrap64 (Z.of_nat (length (sentRequests evs))) /\
  totalSize (_session c)
    = wrap64 (Z.of_nat (length (sentRequests evs)) * responseSize cfg).
Proof.
  intros H. apply exec_accounting in H; cbn; try lia.
  cbn [startSession _session totalCount totalSize config sessionID] in H.
  destruct H as (HC & HS & _). rewrite HC, HS. split; f_equal; lia.
Qed.

Lemma totals_count_the_sends_witness :
  totalCount (_session (finalOf pipelinedOps (startSession defaultConfig 7)))
    = wrap64 (Z.of_nat (length (sentRequests
                (eventsOf pipelinedOps (startSession defaultConfig 7))))) /\
  totalSize (_session (finalOf pipelinedOps (startSession defaultConfig 7)))
    = wrap64 (Z.of_nat (length (sentRequests
                (eventsOf pipelinedOps (startSession defaultConfig 7))))
              * responseSize defaultConfig).
Proof.
  apply (totals_count_the_sends defaultConfig 7 pipelinedOps). reflexivity.
Defined.

(** X4.  The requests of a session go out in order with the session id,
    the numbers 1, 2, 3, ... (on 64 bits) and [responseSize - 16] data
    bytes each. *)
Theorem requests_numbered_consecutively cfg sid ops c evs :
  exec ops (startSession cfg sid) = Ok (c, evs) ->
  sentRequests evs =
    map (fun k => (sid, wrap64 k, responseSize cfg - 16))
        (seqZ 1 (Z.of_nat (length (sentRequests evs)))).
Proof.
  intros H. apply exec_accounting in H; cbn; try lia.
  cbn [startSession _session totalCount totalSize config sessionID] in H.
  destruct H as (_ & _ & _ & Hreq). rewrite Hreq at 1.
  apply map_ext. intros k. reflexivity.
Qed.

Lemma requests_numbered_consecutively_witness :
  sentRequests (eventsOf pipelinedOps (startSession defaultConfig 7)) =
    map (fun k => (7, wrap64 k, responseSize defaultConfig - 16))
        (seqZ 1 (Z.of_nat (length (sentRequests
                  (eventsOf pipelinedOps (startSession defaultConfig 7)))))).
Proof.
  apply (requests_numbered_consecutively defaultConfig 7 pipelinedOps
           (finalOf pipelinedOps (startSession defaultConfig 7))).
  reflexivity.
Defined.

(** *** No step goes wrong *)

Lemma onAck_returns now request c :
  client_ok c -> request_ok request = true ->
  exists c' evs, onAck now request c = Ok (c', evs).
Proof.
  intros Hok Hreq. destruct request as [[ack|]]; cbn in Hreq.
  - destruct (accepted c ack) eqn:Hacc.
    + destruct (onAck_accepted now ack c Hok Hreq Hacc) as (c' & evs & H & _).
      eauto.
    + destruct (onAck_dropped now ack c Hacc) as (ws & _ & H). eauto.
  - eexists _, _. reflexivity.
Qed.

Lemma step_returns o c :
  client_ok c -> op_ok o = true ->
  padding < responseSize (config (_session c)) ->
  exists c' evs, step o c = Ok (c', evs).
Proof.
  intros Hok Ho Hpad. destruct o as [now | now request | ]; cbn [step].
  - unfold senderStep, loopBody.
    destruct (_stopped c); [eauto|].
    destruct (_haveSendPromise c) eqn:Hp; [eauto|].
    destruct (canSend c) eqn:Hcan.
    + destruct (send_Ok now c Hok Hcan Hpad) as (c1 & evs1 & H & _). eauto.
    + cbn. eauto.
  - apply onAck_returns; assumption.
  - unfold onTimer. destruct (_haveSendPromise _); eauto.
Qed.

(** X5.  With requests larger than their 16-byte header, every schedule of
    sender turns, well-typed ACK messages and timer expiry runs to its end:
    no assertion fails, no index is taken modulo zero, the ring is never
    accessed out of range, and the latency loop always finishes. *)
Theorem schedules_never_crash cfg sid ops :
  config_ok cfg = true -> u64b sid = true ->
  padding < responseSize cfg ->
  forallb op_ok ops = true ->
  exists c evs, exec ops (startSession cfg sid) = Ok (c, evs).
Proof.
  intros Hcfg Hsid Hpad Hops.
  pose proof (startSession_ok cfg sid Hcfg Hsid) as Hok.
  assert (Hpad' : padding < responseSize (config (_session (startSession cfg sid))))
    by exact Hpad.
  clear Hpad. revert Hok Hpad'. generalize (startSession cfg sid) as c0.
  induction ops as [|o ops IH]; intros c0 Hok Hpad.
  - eexists _, _. reflexivity.
  - cbn in Hops. apply andb_true_iff in Hops as [Ho Hops].
    destruct (step_returns o c0 Hok Ho Hpad) as (c1 & evs1 & H1).
    destruct (IH Hops c1) as (c2 & evs2 & H2).
    + eapply step_client_ok; eassumption.
    + rewrite (step_config _ _ _ _ H1). exact Hpad.
    + exists c2, (evs1 ++ evs2). cbn [exec]. rewrite H1, H2. reflexivity.
Qed.

Lemma schedules_never_crash_witness :
  config_ok defaultConfig = true /\
  padding < responseSize defaultConfig /\
  exists c evs, exec pipelinedOps (startSession defaultConfig 7) = Ok (c, evs).
Proof.
  split; [reflexivity|]. split; [reflexivity|].
  apply (schedules_never_crash defaultConfig 7 pipelinedOps); reflexivity.
Defined.

(** *** Sessions that never send *)

(** A schedule none of whose steps can send leaves the totals alone. *)
Lemma exec_never_sends (blocked : Client -> Prop) ops c c' evs :
  (forall o c1 c2 evs1, blocked c1 -> step o c1 = Ok (c2, evs1) ->
     sends o c1 = false /\ blocked c2) ->
  blocked c ->
  exec ops c = Ok (c', evs) ->
  blocked c' /\
  totalCount (_session c') = totalCount (_session c) /\
  totalSize (_session c') = totalSize (_session c) /\
  _requestIssueTimes c' = _requestIssueTimes c /\
  sentRequests evs = [].
Proof.
  intros Hstep. revert c evs. induction ops as [|o ops IH]; intros c evs Hb.
  - cbn. intros [= <- <-]. auto.
  - intros H. apply exec_cons_Ok in H as (c1 & evs1 & evs2 & H1 & H2 & ->).
    destruct (Hstep o c c1 evs1 Hb H1) as [Hno Hb1].
    pose proof (step_sends _ _ _ _ H1) as [_ Hs]. rewrite Hno in Hs.
    destruct Hs as (HC & HS & HR & _ & Hreq).
    destruct (IH c1 evs2 Hb1 H2) as (Hb' & IC & IS & IR & Ireq).
    rewrite sentRequests_app, Hreq, Ireq, IC, IS, IR. auto.
Qed.

(** X6.  Once [_stopped] is set it stays set, and the client sends nothing
    any more: whatever follows (sender turns, acks, the timer again), the
    totals and the ring stay as they are and no request goes out. *)
Theorem stopped_client_never_sends ops c c' evs :
  _stopped c = true ->
  exec ops c = Ok (c', evs) ->
  _stopped c' = true /\
  totalCount (_session c') = totalCount (_session c) /\
  totalSize (_session c') = totalSize (_session c) /\
  _requestIssueTimes c' = _requestIssueTimes c /\
  sentRequests evs = [].
Proof.
  intros Hs H.
  apply (exec_never_sends (fun c => _stopped c = true) ops c c' evs);
    [|exact Hs|exact H].
  intros o c1 c2 evs1 Hs1 H1.
  pose proof (step_sends _ _ _ _ H1) as [_ Hstep].
  assert (Hno : sends o c1 = false)
    by (destruct o; cbn; [rewrite Hs1|..]; reflexivity).
  rewrite Hno in Hstep. split; [exact Hno|].
  destruct Hstep as (_ & _ & _ & Hkeep & _). auto.
Qed.

Lemma stopped_client_never_sends_witness :
  let c := finalOf [Sender 0; TimerFired] (startSession defaultConfig 7) in
  let ops := [Sender 1; AckMsg 2 (ackOf 7 1 512); Sender 3; TimerFired] in
  _stopped c = true /\
  _stopped (finalOf ops c) = true /\
  totalCount (_session (finalOf ops c)) = totalCount (_session c) /\
  totalSize (_session (finalOf ops c)) = totalSize (_session c) /\
  _requestIssueTimes (finalOf ops c) = _requestIssueTimes c /\
  sentRequests (eventsOf ops c) = [].
Proof.
  split; [reflexivity|].
  apply (stopped_client_never_sends
           [Sender 1; AckMsg 2 (ackOf 7 1 512); Sender 3; TimerFired]
           (finalOf [Sender 0; TimerFired] (startSession defaultConfig 7)));
    reflexivity.
Defined.

(** X7.  A request size of at most 16 bytes never produces a request: a
    sender turn that has credit fails the assertion on the padding, and a
    schedule that runs to its end has sent nothing. *)
Theorem small_requests_are_never_sent c :
  responseSize (config (_session c)) <= padding ->
  (forall now, sends (Sender now) c = true ->
     senderStep now c = Crash AssertionFailed) /\
  (forall ops c' evs, exec ops c = Ok (c', evs) ->
     totalCount (_session c') = totalCount (_session c) /\
     sentRequests evs = []).
Proof.
  intros Hsmall. split.
  - intros now Hs. cbn in Hs. unbool.
    unfold senderStep, loopBody, send.
    repeat match goal with
           | Hx : ?b = _ |- context [if ?b then _ else _] => rewrite Hx
           end.
    rewrite (proj2 (Z.ltb_ge _ _)) by assumption. reflexivity.
  - intros ops c' evs H.
    destruct (exec_never_sends
                (fun c1 => responseSize (config (_session c1)) <= padding)
                ops c c' evs) as (_ & HC & _ & _ & Hreq);
      [|exact Hsmall|exact H|auto].
    intros o c1 c2 evs1 Hs1 H1. split.
    + destruct (sends o c1) eqn:Hs; [|reflexivity]. exfalso.
      destruct o as [now| |]; try discriminate. cbn in Hs. unbool.
      cbn [step] in H1. unfold senderStep, loopBody, send in H1.
      repeat match type of H1 with
             | context [if ?b then _ else _] =>
                 match goal with Hx : b = _ |- _ => rewrite Hx in H1 end
             end.
      rewrite (proj2 (Z.ltb_ge _ _)) in H1 by assumption. discriminate.
    + rewrite (step_config _ _ _ _ H1). exact Hs1.
Qed.

Lemma small_requests_are_never_sent_witness :
  let c := startSession (configFromFlags false 16 200 10 5) 7 in
  responseSize (config (_session c)) <= padding /\
  (forall now, sends (Sender now) c = true ->
     senderStep now c = Crash AssertionFailed) /\
  (forall ops c' evs, exec ops c = Ok (c', evs) ->
     totalCount (_session c') = totalCount (_session c) /\
     sentRequests evs = []).
Proof.
  split; [vm_compute; discriminate|].
  apply (small_requests_are_never_sent
           (startSession (configFromFlags false 16 200 10 5) 7)).
  vm_compute. discriminate.
Defined.

Lemma onAck_unacked_range now request c c' evs :
  onAck now request c = Ok (c', evs) ->
  0 <= unackedSize (_session c) -> 0 <= unackedCount (_session c) ->
  0 <= unackedSize (_session c') /\ 0 <= unackedCount (_session c').
Proof.
  unfold onAck. destruct (payload request) as [ack|].
  2:{ intros [= <- <-]. auto. }
  pose proof (wrap64_range (totalSize (_session c) - Ack.totalSize ack)).
  pose proof (wrap64_range (totalCount (_session c) - Ack.totalCount ack)).
  destruct (sampleLoop _ _ _ _ _ _) as [samples| |];
    repeat match goal with
           | |- context [if ?b then _ else _] => destruct b
           end; try discriminate; intros [= <- <-]; cbn; intros; lia.
Qed.

(** X8.  With no credit at all ([pipelineSize] or [pipelineCount] zero) a
    session never sends: at the end of every schedule the totals are zero
    and no request has gone out. *)
Theorem zero_credit_never_sends cfg sid ops c evs :
  pipelineSize cfg = 0 \/ pipelineCount cfg = 0 ->
  exec ops (startSession cfg sid) = Ok (c, evs) ->
  totalCount (_session c) = 0 /\ totalSize (_session c) = 0 /\
  sentRequests evs = [].
Proof.
  intros Hzero H.
  destruct (exec_never_sends
              (fun c1 => (pipelineSize (config (_session c1)) = 0 \/
                          pipelineCount (config (_session c1)) = 0) /\
                         0 <= unackedSize (_session c1) /\
                         0 <= unackedCount (_session c1))
              ops (startSession cfg sid) c evs)
    as (_ & HC & HS & _ & Hreq); [| |exact H|auto].
  - intros o c1 c2 evs1 (Hz & HuS & HuC) H1.
    assert (Hno : sends o c1 = false).
    { destruct o; try reflexivity. cbn. unfold canSend.
      destruct Hz as [-> | ->].
      - rewrite (proj2 (Z.ltb_ge _ _)) by lia. cbn. apply andb_false_r.
      - rewrite (proj2 (Z.ltb_ge (unackedCount _) 0)) by lia.
        rewrite !andb_false_r. reflexivity. }
    split; [exact Hno|]. rewrite (step_config _ _ _ _ H1).
    split; [exact Hz|].
    destruct o as [now | now request | ]; cbn [step] in H1.
    + cbn [sends] in Hno. unfold senderStep, loopBody in H1.
      destruct (_stopped c1); [injection H1 as <- <-; auto|].
      destruct (_haveSendPromise c1); [injection H1 as <- <-; auto|].
      cbn in Hno. rewrite Hno in H1. cbn in H1. injection H1 as <- <-. auto.
    + eapply onAck_unacked_range; eassumption.
    + unfold onTimer in H1.
      destruct (_haveSendPromise _); injection H1 as <- <-; auto.
  - cbn. split; [exact Hzero | lia].
Qed.

Lemma zero_credit_never_sends_witness :
  let cfg := configFromFlags false 512 4096 10 5 in
  (pipelineSize cfg = 0 \/ pipelineCount cfg = 0) /\
  totalCount (_session (finalOf pipelinedOps (startSession cfg 7))) = 0 /\
  totalSize (_session (finalOf pipelinedOps (startSession cfg 7))) = 0 /\
  sentRequests (eventsOf pipelinedOps (startSession cfg 7)) = [].
Proof.
  split; [left; reflexivity|].
  apply (zero_credit_never_sends (configFromFlags false 512 4096 10 5) 7
           pipelinedOps);
    [left; reflexivity | reflexivity].
Defined.

(** X9.  The byte credit built from the command line is
    [pipeline_depth_mbytes mod 4096] MiB: the product by 1024 * 1024 is
    taken in 32 bits, so 4096 MiB and every multiple of it give a credit of
    zero bytes. *)
Theorem pipeline_credit_wraps echo_mode request_size pipeline_depth_mbytes
    pipeline_depth_count ack_count :
  pipelineSize (configFromFlags echo_mode request_size pipeline_depth_mbytes
                  pipeline_depth_count ack_count)
  = (pipeline_depth_mbytes mod 4096) * 1048576.
Proof.
  cbn [configFromFlags pipelineSize]. unfold wrap32.
  rewrite Zmult_mod_idemp_l.
  replace (pipeline_depth_mbytes * 1024 * 1024)
    with (pipeline_depth_mbytes * 1048576) by lia.
  change (2 ^ 32) with (4096 * 1048576).
  apply Z.mul_mod_distr_r; lia.
Qed.

(** *** Which slot a sample is taken from *)

(** The samples and the ring reads of an accepted ack. *)
Lemma ack_latency_samples_aux now ack c :
  client_ok c -> ack_ok ack = true -> accepted c ack = true ->
  exists c' evs,
    onAck now {| payload := Some ack |} c = Ok (c', evs) /\
    _requestLatency c' =
      _requestLatency c ++
      map (fun r => snd (sampleOf (config (_session c))
                           (_requestIssueTimes c) now r))
          (sampledRequests c ack) /\
    ringReads evs =
      map (fun r => r mod pipelineCount (config (_session c)))
          (sampledRequests c ack).
Proof.
  intros Hok Hack Hacc.
  destruct (onAck_accepted now ack c Hok Hack Hacc)
    as (c' & evs & Hrun & _ & Hlat & _ & _ & _ & _ & Hevs).
  exists c', evs. split; [exact Hrun|]. split; [exact Hlat|].
  rewrite Hevs, !ringReads_app, ringReads_acceptedWarnings, ringReads_reads.
  destruct (_haveSendPromise c); cbn; rewrite app_nil_r; reflexivity.
Qed.

(** [send] in full: the session as in [send_Ok], the slot it stamps, and
    the fields it leaves alone. *)
Lemma send_stamps now c :
  client_ok c -> canSend c = true ->
  padding < responseSize (config (_session c)) ->
  exists c1 evs1,
    send now c = Ok (c1, evs1) /\
    _requestIssueTimes c1 =
      <[Z.to_nat (wrap64 (totalCount (_session c) + 1)
                  mod pipelineCount (config (_session c))) := now]>
        (_requestIssueTimes c) /\
    _requestLatency c1 = _requestLatency c /\
    In (RingWrite (wrap64 (totalCount (_session c) + 1)
                   mod pipelineCount (config (_session c)))) evs1.
Proof.
  intros Hok Hcan Hpad.
  pose proof (client_ok_ranges c Hok) as (_ & _ & HuS & HuC & HP & HS & HR).
  destruct Hok as (_ & _ & _ & _ & _ & _ & Hlen & _).
  unfold canSend in Hcan. unbool. unfold send.
  rewrite (proj2 (Z.ltb_lt _ _)) by assumption. cbn [negb].
  rewrite (proj2 (Z.eqb_neq _ 0)) by lia. cbn [totalCount].
  set (idx := wrap64 (totalCount (_session c) + 1)
              mod pipelineCount (config (_session c))).
  assert (Hidx : 0 <= idx < pipelineCount (config (_session c)))
    by (apply Z.mod_pos_bound; lia).
  destruct (lookup_lt_is_Some_2 (_requestIssueTimes c) (Z.to_nat idx))
    as [t Ht]; [lia|].
  rewrite Ht. eexists _, _. split; [reflexivity|]. cbn.
  repeat split. left. reflexivity.
Qed.

Lemma next_slot_differs (t P : Z) :
  2 <= P -> (t + 1) mod P <> t mod P.
Proof.
  intros HP Heq.
  assert (H1 : 1 mod P = 1) by (apply Z.mod_small; lia).
  assert (H2 : ((t + 1) - t) mod P = 0).
  { rewrite Zminus_mod, Heq, Z.sub_diag. apply Z.mod_0_l. lia. }
  replace (t + 1 - t) with 1 in H2 by lia. lia.
Qed.

(** X10.  The sample taken when a request is acknowledged is measured from
    the slot of the request before it.  When nothing is in flight, a send
    at [now] stamps slot [(totalCount + 1) mod pipelineCount], and the ack
    for that request, handled at [now'], reads slot
    [totalCount mod pipelineCount] and records [now'] minus that slot's
    content.  With two or more slots this is what the ring held before the
    send (the zero time point for the first request of a session), whatever
    [now] was; with one slot it is [now' - now]. *)
Theorem sample_is_taken_from_previous_slot now now' ack c :
  client_ok c -> canSend c = true ->
  padding < responseSize (config (_session c)) ->
  unackedCount (_session c) = 0 ->
  totalCount (_session c) + 1 < 2 ^ 64 ->
  ack_ok ack = true ->
  Ack.sessionID ack = sessionID (_session c) ->
  Ack.totalCount ack = totalCount (_session c) + 1 ->
  Ack.totalSize ack <=
    wrap64 (totalSize (_session c) + responseSize (config (_session c))) ->
  let P := pipelineCount (config (_session c)) in
  exists c1 evs1 c2 evs2,
    send now c = Ok (c1, evs1) /\
    In (RingWrite ((totalCount (_session c) + 1) mod P)) evs1 /\
    onAck now' {| payload := Some ack |} c1 = Ok (c2, evs2) /\
    ringReads evs2 = [totalCount (_session c) mod P] /\
    (2 <= P ->
     _requestLatency c2 =
       _requestLatency c ++
       [now' - default 0 (_requestIssueTimes c
                            !! Z.to_nat (totalCount (_session c) mod P))]) /\
    (P = 1 -> _requestLatency c2 = _requestLatency c ++ [now' - now]).
Proof.
  intros Hok Hcan Hpad Hu0 Hnowrap Hack Hsid Hcnt Hsz P.
  pose proof (client_ok_ranges c Hok) as (_ & HtC & _ & _ & HP & _).
  assert (HPpos : 0 < P)
    by (unfold canSend in Hcan; unbool; subst P; lia).
  destruct (send_Ok now c Hok Hcan Hpad) as (c1 & evs1 & Hsend & Hs1).
  destruct (send_stamps now c Hok Hcan Hpad)
    as (c1' & evs1' & Hsend' & Hring & Hlat & Hw).
  rewrite Hsend in Hsend'. injection Hsend' as <- <-.
  rewrite wrap64_small in Hring, Hw by lia. fold P in Hring, Hw.
  assert (Hok1 : client_ok c1) by (eapply send_client_ok; eassumption).
  assert (Hacc : accepted c1 ack = true).
  { unfold accepted. rewrite Hs1; cbn. rewrite Hsid, Hcnt.
    rewrite wrap64_small by lia.
    rewrite Z.eqb_refl, Z.leb_refl, (proj2 (Z.leb_le _ _)) by assumption.
    reflexivity. }
  destruct (ack_latency_samples_aux now' ack c1 Hok1 Hack Hacc)
    as (c2 & evs2 & Hrun & Hlat2 & Hreads).
  assert (Hfirst : firstUnacked c1 = totalCount (_session c)).
  { unfold firstUnacked. rewrite Hs1; cbn. rewrite Hu0.
    rewrite (wrap64_small (_ + 1)) by lia.
    replace (totalCount (_session c) + 1 - (0 + 1))
      with (totalCount (_session c)) by lia.
    apply wrap64_small. lia. }
  assert (Hreqs : sampledRequests c1 ack = [totalCount (_session c)]).
  { unfold sampledRequests. rewrite Hfirst, Hcnt.
    replace (totalCount (_session c) + 1 - totalCount (_session c)) with 1
      by lia. reflexivity. }
  assert (Hcfg1 : config (_session c1) = config (_session c))
    by (rewrite Hs1; reflexivity).
  rewrite Hreqs, Hcfg1 in Hlat2, Hreads. cbn [map sampleOf snd] in Hlat2, Hreads.
  fold P in Hlat2, Hreads. rewrite Hring, Hlat in Hlat2.
  exists c1, evs1, c2, evs2.
  split; [exact Hsend|]. split; [exact Hw|]. split; [exact Hrun|].
  split; [exact Hreads|]. split.
  - intros HP2. rewrite Hlat2. do 3 f_equal.
    rewrite list_lookup_insert_ne; [reflexivity|].
    pose proof (next_slot_differs (totalCount (_session c)) P HP2) as Hne.
    pose proof (Z.mod_pos_bound (totalCount (_session c)) P HPpos).
    pose proof (Z.mod_pos_bound (totalCount (_session c) + 1) P HPpos).
    intros Heq. apply Hne. lia.
  - intros HP1. rewrite Hlat2. do 3 f_equal.
    rewrite HP1, !Z.mod_1_r.
    destruct Hok as (_ & _ & _ & _ & _ & _ & Hlen & _).
    fold P in Hlen. rewrite HP1 in Hlen.
    rewrite list_lookup_insert_eq by (rewrite Hlen; cbn; lia). reflexivity.
Qed.

Lemma freshSession_ok : client_ok freshSession.
Proof. apply startSession_ok; reflexivity. Qed.

Lemma sample_is_taken_from_previous_slot_witness :
  canSend freshSession = true /\
  let P := pipelineCount (config (_session freshSession)) in
  exists c1 evs1 c2 evs2,
    send 100 freshSession = Ok (c1, evs1) /\
    In (RingWrite ((totalCount (_session freshSession) + 1) mod P)) evs1 /\
    onAck 150 {| payload := Some (ackRecord 7 1 512) |} c1 = Ok (c2, evs2) /\
    ringReads evs2 = [totalCount (_session freshSession) mod P] /\
    (2 <= P ->
     _requestLatency c2 =
       _requestLatency freshSession ++
       [150 - default 0 (_requestIssueTimes freshSession
               !! Z.to_nat (totalCount (_session freshSession) mod P))]) /\
    (P = 1 ->
     _requestLatency c2 = _requestLatency freshSession ++ [150 - 100]).
Proof.
  split; [reflexivity|].
  apply (sample_is_taken_from_previous_slot 100 150 (ackRecord 7 1 512)
           freshSession freshSession_ok);
    first [reflexivity | vm_compute; discriminate].
Defined.

(** The first sample of the default session: the request is sent at 100 and
    acknowledged at 150, and the sample is 150. *)
Example first_sample_of_default_session :
  _requestLatency
    (finalOf [Sender 100; AckMsg 150 (ackOf 7 1 512)] freshSession)
  = [150].
Proof. vm_compute. reflexivity. Qed.

(** *** Credit never exceeds the totals; one sample per acknowledged request *)

(** One step, as long as the totals do not wrap around. *)
Lemma step_unacked_le_total o c c1 evs :
  client_ok c -> op_ok o = true ->
  unackedCount (_session c) <= totalCount (_session c) ->
  unackedSize (_session c) <= totalSize (_session c) ->
  totalCount (_session c) + 1 < 2 ^ 64 ->
  totalSize (_session c) + responseSize (config (_session c)) < 2 ^ 64 ->
  step o c = Ok (c1, evs) ->
  unackedCount (_session c1) <= totalCount (_session c1) /\
  unackedSize (_session c1) <= totalSize (_session c1) /\
  totalCount (_session c1) <= totalCount (_session c) + 1 /\
  totalSize (_session c1)
    <= totalSize (_session c) + responseSize (config (_session c)) /\
  (notStale o c = true ->
   Z.of_nat (length (_requestLatency c))
     = totalCount (_session c) - unackedCount (_session c) ->
   Z.of_nat (length (_requestLatency c1))
     = totalCount (_session c1) - unackedCount (_session c1)).
Proof.
  intros Hok Ho HC HS HwC HwS.
  pose proof (client_ok_ranges c Hok) as (HtS & HtC & HuS & HuC & _ & _ & HR).
  assert (Hsame : step o c = Ok (c, []) ->
    unackedCount (_session c) <= totalCount (_session c) /\
    unackedSize (_session c) <= totalSize (_session c) /\
    totalCount (_session c) <= totalCount (_session c) + 1 /\
    totalSize (_session c)
      <= totalSize (_session c) + responseSize (config (_session c)) /\
    (notStale o c = true ->
     Z.of_nat (length (_requestLatency c))
       = totalCount (_session c) - unackedCount (_session c) ->
     Z.of_nat (length (_requestLatency c))
       = totalCount (_session c) - unackedCount (_session c)))
    by (intros _; repeat split; auto; lia).
  destruct o as [now | now [[ack|]] | ]; cbn [step op_ok request_ok payload] in *.
  - unfold senderStep, loopBody in *.
    destruct (_stopped c); [intros [= <- <-]; auto|].
    destruct (_haveSendPromise c); [intros [= <- <-]; auto|].
    destruct (canSend c) eqn:Hcan.
    + destruct (Z.ltb_spec padding (responseSize (config (_session c))))
        as [Hpad | Hpad].
      * destruct (send_Ok now c Hok Hcan Hpad) as (c' & evs' & Hsend & Hs).
        destruct (send_stamps now c Hok Hcan Hpad)
          as (c'' & evs'' & Hsend' & _ & Hlat & _).
        rewrite Hsend in Hsend'. injection Hsend' as <- <-.
        rewrite Hsend. intros [= <- <-]. rewrite Hs, Hlat. cbn.
        rewrite !wrap64_small by lia. repeat split; lia.
      * unfold send. rewrite (proj2 (Z.ltb_ge _ _)) by assumption.
        discriminate.
    + cbn. intros [= <- <-]. cbn. repeat split; auto; lia.
  - destruct (accepted c ack) eqn:Hacc.
    + destruct (onAck_accepted now ack c Hok Ho Hacc)
        as (c' & evs' & -> & Hs & Hlat & _).
      intros [= <- <-].
      pose proof (ack_ok_ranges ack Ho) as (HaC & HaS).
      pose proof Hacc as Hacc'. unfold accepted in Hacc'. unbool.
      rewrite Hs, Hlat. cbn [setCredit unackedCount unackedSize totalCount totalSize].
      repeat split; try lia.
      cbn [notStale]. rewrite Hacc. cbn [implb]. unfold fresh. intros Hf Hlen.
      unbool. rewrite length_app, length_map. unfold sampledRequests.
      rewrite length_seqZ. unfold firstUnacked. rewrite wrap64_small by lia.
      lia.
    + destruct (onAck_dropped now ack c Hacc) as (ws & _ & ->).
      intros [= <- <-]. repeat split; auto; lia.
  - intros [= <- <-]. repeat split; auto; lia.
  - unfold onTimer. destruct (_haveSendPromise _); intros [= <- <-];
      cbn; repeat split; auto; lia.
Qed.

Lemma exec_unacked_le_total ops c c' evs :
  client_ok c -> forallb op_ok ops = true ->
  unackedCount (_session c) <= totalCount (_session c) ->
  unackedSize (_session c) <= totalSize (_session c) ->
  totalCount (_session c) + Z.of_nat (length ops) < 2 ^ 64 ->
  totalSize (_session c)
    + Z.of_nat (length ops) * responseSize (config (_session c)) < 2 ^ 64 ->
  exec ops c = Ok (c', evs) ->
  unackedCount (_session c') <= totalCount (_session c') /\
  unackedSize (_session c') <= totalSize (_session c') /\
  (noStaleAcks ops c = true ->
   Z.of_nat (length (_requestLatency c))
     = totalCount (_session c) - unackedCount (_session c) ->
   Z.of_nat (length (_requestLatency c'))
     = totalCount (_session c') - unackedCount (_session c')).
Proof.
  revert c evs. induction ops as [|o ops IH];
    intros c evs Hok Hops HC HS HwC HwS.
  - cbn. intros [= <- <-]. auto.
  - cbn in Hops. apply andb_true_iff in Hops as [Ho Hops].
    intros H. apply exec_cons_Ok in H as (c1 & evs1 & evs2 & H1 & H2 & _).
    pose proof (client_ok_ranges c Hok) as (_ & _ & _ & _ & _ & _ & HR).
    cbn [length] in HwC, HwS.
    destruct (step_unacked_le_total o c c1 evs1 Hok Ho HC HS)
      as (HC1 & HS1 & HbC & HbS & Hlat1); [nia | nia | exact H1 |].
    pose proof (step_config _ _ _ _ H1) as Hcfg.
    destruct (IH c1 evs2) as (HC' & HS' & Hlat');
      [eapply step_client_ok; eassumption | exact Hops | exact HC1 | exact HS1
      | lia | rewrite Hcfg; nia | exact H2 |].
    split; [exact HC'|]. split; [exact HS'|].
    cbn [noStaleAcks]. rewrite H1. intros Hf Hlen.
    apply andb_true_iff in Hf as [Hf1 Hf2]. auto.
Qed.

(** X11.  In a session of fewer than 2^32 steps, what is unacknowledged
    never exceeds what was sent: [unackedCount <= totalCount] and
    [unackedSize <= totalSize], stale acks included. *)
Theorem unacked_never_exceeds_total cfg sid ops c evs :
  config_ok cfg = true -> u64b sid = true ->
  forallb op_ok ops = true ->
  Z.of_nat (length ops) < 2 ^ 32 ->
  exec ops (startSession cfg sid) = Ok (c, evs) ->
  unackedCount (_session c) <= totalCount (_session c) /\
  unackedSize (_session c) <= totalSize (_session c).
Proof.
  intros Hcfg Hsid Hops Hlen H.
  pose proof (startSession_ok cfg sid Hcfg Hsid) as Hok.
  pose proof (client_ok_ranges _ Hok) as (_ & _ & _ & _ & _ & _ & HR).
  destruct (exec_unacked_le_total ops (startSession cfg sid) c evs Hok Hops)
    as (HC & HS & _); cbn in *; try lia; try nia; auto.
Qed.

Lemma unacked_never_exceeds_total_witness :
  Z.of_nat (length replayOps) < 2 ^ 32 /\
  unackedCount (_session (finalOf replayOps (startSession replayConfig 7)))
    <= totalCount (_session (finalOf replayOps (startSession replayConfig 7))) /\
  unackedSize (_session (finalOf replayOps (startSession replayConfig 7)))
    <= totalSize (_session (finalOf replayOps (startSession replayConfig 7))).
Proof.
  split; [reflexivity|].
  apply (unacked_never_exceeds_total replayConfig 7 replayOps
           (finalOf replayOps (startSession replayConfig 7))
           (eventsOf replayOps (startSession replayConfig 7)));
    reflexivity.
Defined.

(** X12.  In a session of fewer than 2^32 steps in which no accepted ack is
    stale, the histogram holds exactly one sample for each acknowledged
    request: its size is [totalCount - unackedCount]. *)
Theorem one_sample_per_acknowledged_request cfg sid ops c evs :
  config_ok cfg = true -> u64b sid = true ->
  forallb op_ok ops = true ->
  noStaleAcks ops (startSession cfg sid) = true ->
  Z.of_nat (length ops) < 2 ^ 32 ->
  exec ops (startSession cfg sid) = Ok (c, evs) ->
  Z.of_nat (length (_requestLatency c))
    = totalCount (_session c) - unackedCount (_session c).
Proof.
  intros Hcfg Hsid Hops Hfresh Hlen H.
  pose proof (startSession_ok cfg sid Hcfg Hsid) as Hok.
  pose proof (client_ok_ranges _ Hok) as (_ & _ & _ & _ & _ & _ & HR).
  destruct (exec_unacked_le_total ops (startSession cfg sid) c evs Hok Hops)
    as (_ & _ & Hlat); cbn in *; try lia; try nia; auto.
Qed.

Lemma one_sample_per_acknowledged_request_witness :
  noStaleAcks pipelinedOps (startSession defaultConfig 7) = true /\
  Z.of_nat (length (_requestLatency
              (finalOf pipelinedOps (startSession defaultConfig 7))))
    = totalCount (_session (finalOf pipelinedOps (startSession defaultConfig 7)))
      - unackedCount
          (_session (finalOf pipelinedOps (startSession defaultConfig 7))).
Proof.
  split; [reflexivity|].
  apply (one_sample_per_acknowledged_request defaultConfig 7 pipelinedOps
           (finalOf pipelinedOps (startSession defaultConfig 7))
           (eventsOf pipelinedOps (startSession defaultConfig 7)));
    reflexivity.
Defined.

(** *** The promise *)

Lemma promiseSets_app (evs1 evs2 : list event) :
  promiseSets (evs1 ++ evs2) = (promiseSets evs1 + promiseSets evs2)%nat.
Proof. unfold promiseSets. rewrite omap_app, length_app. reflexivity. Qed.

Lemma promiseSets_reads {A : Type} (f : A -> Z) (l : list A) :
  promiseSets (map (fun p => RingRead (f p)) l) = 0%nat.
Proof. induction l as [|x l IH]; [reflexivity | exact IH]. Qed.

Lemma promiseSets_acceptedWarnings c ack :
  promiseSets (acceptedWarnings c ack) = 0%nat.
Proof.
  unfold acceptedWarnings.
  destruct (_ <=? _); destruct (negb _); reflexivity.
Qed.

Lemma promiseSets_warn (w : warning) (evs : list event) :
  promiseSets (Warn w :: evs) = promiseSets evs.
Proof. reflexivity. Qed.

Lemma onAck_promise now request c c' evs :
  onAck now request c = Ok (c', evs) ->
  (promiseSets evs + pending c' = pending c)%nat.
Proof.
  unfold onAck. destruct (payload request) as [ack|].
  2:{ intros [= <- <-]. reflexivity. }
  destruct (sampleLoop _ _ _ _ _ _) as [samples| |];
    cbn [_haveSendPromise];
    destruct (_haveSendPromise c) eqn:Hp;
    repeat match goal with
           | |- context [if ?b then _ else _] => destruct b
           end; try discriminate; intros [= <- <-];
    unfold pending; cbn [setHaveSendPromise _haveSendPromise]; rewrite ?Hp;
    rewrite ?promiseSets_warn, ?promiseSets_app, ?promiseSets_reads;
    reflexivity.
Qed.

Lemma step_promise o c c1 evs :
  step o c = Ok (c1, evs) ->
  ((if parks o c then 1 else 0) + pending c = promiseSets evs + pending c1)%nat.
Proof.
  destruct o as [now | now request | ]; cbn [step parks].
  - unfold senderStep, loopBody, pending.
    destruct (_stopped c); cbn [negb andb]; [intros [= <- <-]; reflexivity|].
    destruct (_haveSendPromise c) eqn:Hp; cbn [negb andb].
    { intros [= <- <-]. rewrite Hp. reflexivity. }
    destruct (canSend c); cbn [negb].
    + unfold send. destruct (negb _); [discriminate|].
      destruct (_ =? _); [discriminate|]. destruct (_ !! _); [|discriminate].
      intros [= <- <-]. cbn. rewrite Hp. reflexivity.
    + cbn. intros [= <- <-]. reflexivity.
  - intros H. apply onAck_promise in H. lia.
  - unfold onTimer, pending. cbn [setStopped _haveSendPromise].
    destruct (_haveSendPromise c) eqn:Hp; intros [= <- <-];
      cbn [setHaveSendPromise setStopped _haveSendPromise];
      rewrite ?Hp; reflexivity.
Qed.

(** X13.  Along every schedule, the promises the sender has installed are
    those that were fulfilled plus the one still pending, if any: the
    observer and the timer fulfil [_sendProm] only while one is pending,
    and each installed promise is fulfilled at most once. *)
Theorem promises_are_fulfilled_once ops c c' evs :
  exec ops c = Ok (c', evs) ->
  (parkCount ops c + pending c = promiseSets evs + pending c')%nat.
Proof.
  revert c evs. induction ops as [|o ops IH]; intros c evs.
  - cbn. intros [= <- <-]. reflexivity.
  - intros H. apply exec_cons_Ok in H as (c1 & evs1 & evs2 & H1 & H2 & ->).
    cbn [parkCount]. rewrite H1, promiseSets_app.
    pose proof (step_promise _ _ _ _ H1). pose proof (IH _ _ H2). lia.
Qed.

Lemma promises_are_fulfilled_once_witness :
  let ops := [Sender 0; Sender 1; Sender 2; AckMsg 3 (ackOf 7 1 512);
              Sender 4; Sender 5; TimerFired] in
  let c := startSession replayConfig 7 in
  parkCount ops c = 2%nat /\
  (parkCount ops c + pending c
   = promiseSets (eventsOf ops c) + pending (finalOf ops c))%nat.
Proof.
  split; [reflexivity|].
  apply (promises_are_fulfilled_once
           [Sender 0; Sender 1; Sender 2; AckMsg 3 (ackOf 7 1 512);
            Sender 4; Sender 5; TimerFired]
           (startSession replayConfig 7)).
  reflexivity.
Defined.

(** *** An ack delivered twice *)

(** X14.  An accepted ack that is delivered again at once changes nothing
    the second time: the session and the histogram stay as the first
    delivery left them, no slot is read and no promise is fulfilled. *)
Theorem repeated_ack_is_idempotent now now' ack c :
  client_ok c -> ack_ok ack = true -> accepted c ack = true ->
  exists c1 evs1 c2 evs2,
    onAck now {| payload := Some ack |} c = Ok (c1, evs1) /\
    onAck now' {| payload := Some ack |} c1 = Ok (c2, evs2) /\
    _session c2 = _session c1 /\
    _requestLatency c2 = _requestLatency c1 /\
    ringReads evs2 = [] /\ promiseSets evs2 = 0%nat.
Proof.
  intros Hok Hack Hacc.
  destruct (onAck_accepted now ack c Hok Hack Hacc)
    as (c1 & evs1 & Hrun1 & Hs1 & _ & _ & _ & _ & Hp1 & _).
  assert (Hok1 : client_ok c1)
    by (eapply (onAck_client_ok now {| payload := Some ack |}); eassumption).
  pose proof (client_ok_ranges c Hok) as (HtS & HtC & _).
  pose proof (ack_ok_ranges ack Hack) as (HaC & HaS).
  assert (Hacc1 : accepted c1 ack = true)
    by (unfold accepted in *; rewrite Hs1; exact Hacc).
  unfold accepted in Hacc. unbool.
  destruct (onAck_accepted now' ack c1 Hok1 Hack Hacc1)
    as (c2 & evs2 & Hrun2 & Hs2 & Hlat2 & _ & _ & _ & _ & Hevs2).
  assert (Hnone : sampledRequests c1 ack = []).
  { unfold sampledRequests, firstUnacked. rewrite Hs1. cbn.
    replace (totalCount (_session c)
             - (totalCount (_session c) - Ack.totalCount ack))
      with (Ack.totalCount ack) by lia.
    rewrite wrap64_small by lia. apply seqZ_nil. lia. }
  exists c1, evs1, c2, evs2.
  split; [exact Hrun1|]. split; [exact Hrun2|]. split.
  { rewrite Hs2, Hs1. reflexivity. }
  split.
  { rewrite Hlat2, Hnone. apply app_nil_r. }
  rewrite Hevs2, Hnone, Hp1. cbn [map]. rewrite !app_nil_r.
  split; [apply ringReads_acceptedWarnings | apply promiseSets_acceptedWarnings].
Qed.

Lemma repeated_ack_is_idempotent_witness :
  accepted threeInFlight (ackRecord 7 2 1024) = true /\
  exists c1 evs1 c2 evs2,
    onAck 8 {| payload := Some (ackRecord 7 2 1024) |} threeInFlight
      = Ok (c1, evs1) /\
    onAck 9 {| payload := Some (ackRecord 7 2 1024) |} c1 = Ok (c2, evs2) /\
    _session c2 = _session c1 /\
    _requestLatency c2 = _requestLatency c1 /\
    ringReads evs2 = [] /\ promiseSets evs2 = 0%nat.
Proof.
  split; [reflexivity|].
  apply (repeated_ack_is_idempotent 8 9 (ackRecord 7 2 1024) threeInFlight
           threeInFlight_ok); reflexivity.
Defined.

(** *** The gauges *)

(** X15.  Along a schedule without stale acks the depth gauge shows the
    free slots of the pipeline, between zero and [pipelineCount].  The
    bytes gauge shows the free bytes as long as [unackedSize] is within
    [pipelineSize]; once the last request has passed the byte credit the
    unsigned difference wraps around and the gauge shows more than
    [2^64 - responseSize]. *)
Theorem gauges_along_fresh_schedules cfg sid ops c evs :
  config_ok cfg = true -> u64b sid = true ->
  forallb op_ok ops = true ->
  noStaleAcks ops (startSession cfg sid) = true ->
  exec ops (startSession cfg sid) = Ok (c, evs) ->
  pipelineDepthGauge c = pipelineCount cfg - unackedCount (_session c) /\
  0 <= pipelineDepthGauge c <= pipelineCount cfg /\
  (unackedSize (_session c) <= pipelineSize cfg ->
   pipelineBytesGauge c = pipelineSize cfg - unackedSize (_session c)) /\
  (pipelineSize cfg < unackedSize (_session c) ->
   pipelineBytesGauge c
     = 2 ^ 64 - (unackedSize (_session c) - pipelineSize cfg) /\
   2 ^ 64 - responseSize cfg < pipelineBytesGauge c).
Proof.
  intros Hcfg Hsid Hops Hfresh Hexec.
  pose proof (startSession_ok cfg sid Hcfg Hsid) as Hok0.
  pose proof (exec_client_ok _ _ _ _ Hok0 Hops Hexec) as Hok.
  pose proof (client_ok_ranges c Hok) as (_ & _ & HuS & HuC & HP & HS & HR).
  assert (Hb : creditBound c).
  { eapply exec_creditBound; [exact Hok0 | exact Hops | exact Hfresh | | exact Hexec].
    pose proof (client_ok_ranges _ Hok0) as (_ & _ & _ & _ & HP0 & HS0 & _).
    unfold creditBound; cbn in *. lia. }
  pose proof (exec_config _ _ _ _ Hexec) as Hc. cbn in Hc.
  unfold creditBound in Hb. unfold pipelineDepthGauge, pipelineBytesGauge.
  rewrite Hc in *. destruct Hb as [HbC HbS].
  rewrite (wrap64_small (pipelineCount cfg - _)) by lia.
  split; [reflexivity|]. split; [lia|]. split.
  - intros Hle. apply wrap64_small. lia.
  - intros Hgt.
    assert (Hw : wrap64 (pipelineSize cfg - unackedSize (_session c))
                 = 2 ^ 64 - (unackedSize (_session c) - pipelineSize cfg)).
    { unfold wrap64.
      rewrite <- (Z_mod_plus_full (pipelineSize cfg - _) 1 (2 ^ 64)).
      rewrite Z.mod_small by lia. lia. }
    rewrite Hw. split; [reflexivity | lia].
Qed.

Lemma gauges_along_fresh_schedules_witness :
  noStaleAcks overshootOps (startSession overshootConfig 7) = true /\
  let c := finalOf overshootOps (startSession overshootConfig 7) in
  pipelineDepthGauge c
    = pipelineCount overshootConfig - unackedCount (_session c) /\
  0 <= pipelineDepthGauge c <= pipelineCount overshootConfig /\
  (unackedSize (_session c) <= pipelineSize overshootConfig ->
   pipelineBytesGauge c
     = pipelineSize overshootConfig - unackedSize (_session c)) /\
  (pipelineSize overshootConfig < unackedSize (_session c) ->
   pipelineBytesGauge c
     = 2 ^ 64 - (unackedSize (_session c) - pipelineSize overshootConfig) /\
   2 ^ 64 - responseSize overshootConfig < pipelineBytesGauge c).
Proof.
  split; [vm_compute; reflexivity|].
  apply (gauges_along_fresh_schedules overshootConfig 7 overshootOps
           (finalOf overshootOps (startSession overshootConfig 7))
           (eventsOf overshootOps (startSession overshootConfig 7)));
    vm_compute; reflexivity.
Defined.

(** ** Discovery *)

Section DiscoveryProperties.

Variable env : nat -> attemptInput.

(** The timeouts of discovery fit their 64 bits. *)
Lemma discovery_timeout_fits (j : nat) :
  (j <= 10)%nat -> fitsS64 (msec 10 * factorial j).
Proof.
  intros Hj. unfold fitsS64.
  do 11 (destruct j as [|j]; [vm_compute; split; [discriminate | reflexivity]|]).
  lia.
Qed.

Lemma discovery_next_timeout (j : nat) :
  (j < 10)%nat ->
  wrapS64 (msec 10 * factorial j * (Z.of_nat j + 1))
  = msec 10 * factorial j * (Z.of_nat j + 1).
Proof.
  intros Hj. apply wrapS64_small.
  pose proof (discovery_timeout_fits (S j) ltac:(lia)) as Hfit.
  rewrite factorial_S in Hfit.
  replace (msec 10 * (factorial j * (Z.of_nat j + 1)))
    with (msec 10 * factorial j * (Z.of_nat j + 1)) in Hfit by lia.
  exact Hfit.
Qed.

Lemma discoveryTimeouts_S (j : nat) :
  discoveryTimeouts (S j)
  = discoveryTimeouts j ++ [msec 10 * factorial j * (Z.of_nat j + 1)].
Proof.
  unfold discoveryTimeouts. rewrite seq_S, map_app. cbn [map Nat.add].
  rewrite factorial_S. do 2 f_equal. lia.
Qed.

(** An attempt that is retried, from the state after [j] such attempts. *)
Lemma attempt_afterRetries (j : nat) (e0 e : exn) :
  (j < 10)%nat ->
  retriedFailure (env j) = Some e ->
  attempt (discoveryAttempt env) (afterRetries j e0) = afterRetries (S j) e.
Proof.
  intros Hj He.
  unfold attempt, discoveryAttempt, afterRetries.
  cbn [drv world _try _retries _rate _currentTimeout _used
       dStopped dClient dRequests dAttempts orb].
  unfold retriedFailure in He.
  destruct (env j) as [sb rp sd]. cbn [stopBefore reply stopDuring] in *.
  destruct sb; [discriminate|]. destruct sd; [discriminate|]. cbn [orb] in He.
  rewrite discoveryTimeouts_S, seq_S, map_app. cbn [map Nat.add].
  rewrite factorial_S.
  replace (Z.of_nat (S j)) with (Z.of_nat j + 1) by lia.
  replace (msec 10 * (factorial j * (Z.of_nat j + 1)))
    with (msec 10 * factorial j * (Z.of_nat j + 1)) by lia.
  rewrite (discovery_next_timeout j) by lia.
  destruct rp as [[] | [bufs|]]; cbn [dStopped];
    try (destruct (length (List.concat bufs) =? 0)%nat);
    try discriminate; injection He as <-; reflexivity.
Qed.

Lemma do_until_afterRetries (e : nat -> exn) (j fuel : nat) :
  (forall i, (i < j)%nat -> retriedFailure (env i) = Some (e i)) ->
  (j + fuel = 10)%nat ->
  do_until (discoveryAttempt env) 10 (afterRetries 0 RequestTimeoutException)
  = do_until (discoveryAttempt env) fuel (afterRetries j (lastFailure e j)).
Proof.
  revert fuel. induction j as [|j IH]; intros fuel He Hfuel.
  - cbn in Hfuel. subst fuel. reflexivity.
  - rewrite (IH (S fuel)) by (auto with lia).
    cbn [do_until]. unfold loopDone at 1. cbn [afterRetries drv _success _retries _try orb].
    rewrite (proj2 (Z.leb_gt 10 (Z.of_nat j))) by lia.
    rewrite (attempt_afterRetries j _ (e j)) by (first [lia | apply He; lia]).
    reflexivity.
Qed.

(** [_discovery] is the loop of [run] from the state before any attempt. *)
Lemma discovery_run (r0 ra0 : Z) (s0 : Duration) (remotes myID : nat) :
  (myID < remotes)%nat ->
  _discovery r0 ra0 s0 remotes myID env discoveryStart
  = option_map (fun r => (result r, world r))
      (do_until (discoveryAttempt env) 10
         (afterRetries 0 RequestTimeoutException)).
Proof.
  intros Hid. unfold _discovery.
  rewrite (proj2 (Nat.leb_gt remotes myID)) by lia.
  rewrite setters_newStrategy. reflexivity.
Qed.

(** X16.  Answers without data are retried like any failure.  If each of
    the ten attempts fails (the transport fails other than by shutting
    down, or answers with a null or empty payload) and nothing stops the
    client, discovery sends ten requests with the timeouts 10 ms * k!,
    leaves the endpoint unset and fails with the failure of the tenth
    attempt. *)
Theorem discovery_exhausts_retries (r0 ra0 : Z) (s0 : Duration)
    (remotes myID : nat) (e : nat -> exn) :
  (myID < remotes)%nat ->
  (forall i, (i < 10)%nat -> retriedFailure (env i) = Some (e i)) ->
  _discovery r0 ra0 s0 remotes myID env discoveryStart
  = Some (Failed (e 9%nat),
          {| dStopped := false; dClient := None;
             dRequests := discoveryTimeouts 10; dAttempts := 10 |}).
Proof.
  intros Hid He. rewrite discovery_run by exact Hid.
  rewrite (do_until_afterRetries e 10 0) by (auto with lia).
  reflexivity.
Qed.

(** The loop after [k] retried attempts when attempt [k + 1] ends it. *)
Lemma do_until_last_attempt (e : nat -> exn) (k : nat) (s : RunState Discovery) :
  (k < 10)%nat ->
  (forall i, (i < k)%nat -> retriedFailure (env i) = Some (e i)) ->
  attempt (discoveryAttempt env) (afterRetries k (lastFailure e k)) = s ->
  loopDone (drv s) = true ->
  do_until (discoveryAttempt env) 10 (afterRetries 0 RequestTimeoutException)
  = Some s.
Proof.
  intros Hk He Hs Hdone.
  rewrite (do_until_afterRetries e k (S (9 - k))) by (auto with lia).
  cbn [do_until]. unfold loopDone at 1.
  cbn [afterRetries drv _success _retries _try orb].
  rewrite (proj2 (Z.leb_gt 10 (Z.of_nat k))) by lia.
  rewrite Hs. destruct (9 - k)%nat; cbn [do_until]; rewrite Hdone; reflexivity.
Qed.

(** X17.  When the first [k] attempts are retried and attempt [k + 1] gets
    an answer with data, discovery succeeds after [k + 1] requests, and the
    endpoint is the concatenation of the buffers of that answer. *)
Theorem discovery_finds_endpoint (r0 ra0 : Z) (s0 : Duration)
    (remotes myID : nat) (e : nat -> exn) (k : nat)
    (bufs : list (list Byte.byte)) :
  (myID < remotes)%nat -> (k < 10)%nat ->
  (forall i, (i < k)%nat -> retriedFailure (env i) = Some (e i)) ->
  env k = {| stopBefore := false; reply := RpcPayload (Some bufs);
             stopDuring := false |} ->
  List.concat bufs <> [] ->
  _discovery r0 ra0 s0 remotes myID env discoveryStart
  = Some (Ready,
          {| dStopped := false; dClient := Some (List.concat bufs);
             dRequests := discoveryTimeouts (S k); dAttempts := S k |}).
Proof.
  intros Hid Hk He Hgood Hdata. rewrite discovery_run by exact Hid.
  erewrite (do_until_last_attempt e k); [| exact Hk | exact He | reflexivity |].
  - unfold attempt, discoveryAttempt.
    cbn [afterRetries drv world dAttempts dStopped dClient dRequests orb
         _currentTimeout _try _retries].
    rewrite (discovery_next_timeout k) by lia.
    rewrite Hgood. cbn [stopBefore reply stopDuring orb dStopped].
    destruct (List.concat bufs) as [|b bs] eqn:Hc; [contradiction|].
    cbn [length Nat.eqb result world dStopped].
    rewrite discoveryTimeouts_S. reflexivity.
  - unfold attempt, discoveryAttempt.
    cbn [afterRetries drv world dAttempts dStopped dClient dRequests orb
         _currentTimeout _try _retries].
    rewrite (discovery_next_timeout k) by lia.
    rewrite Hgood. cbn [stopBefore reply stopDuring orb dStopped].
    destruct (List.concat bufs) as [|b bs] eqn:Hc; [contradiction|].
    reflexivity.
Qed.

(** X18.  When the client is stopped while request [k + 1] is under way,
    discovery reports success whatever the transport answers, sends no
    further request and leaves the endpoint unset. *)
Theorem discovery_stopped_during_request (r0 ra0 : Z) (s0 : Duration)
    (remotes myID : nat) (e : nat -> exn) (k : nat) :
  (myID < remotes)%nat -> (k < 10)%nat ->
  (forall i, (i < k)%nat -> retriedFailure (env i) = Some (e i)) ->
  stopBefore (env k) = false -> stopDuring (env k) = true ->
  _discovery r0 ra0 s0 remotes myID env discoveryStart
  = Some (Ready,
          {| dStopped := true; dClient := None;
             dRequests := discoveryTimeouts (S k); dAttempts := S k |}).
Proof.
  intros Hid Hk He Hsb Hsd. rewrite discovery_run by exact Hid.
  erewrite (do_until_last_attempt e k); [| exact Hk | exact He | reflexivity |].
  - unfold attempt, discoveryAttempt.
    cbn [afterRetries drv world dAttempts dStopped dClient dRequests orb
         _currentTimeout _try _retries].
    rewrite (discovery_next_timeout k) by lia.
    rewrite Hsb, Hsd. cbn [orb dStopped].
    rewrite discoveryTimeouts_S.
    destruct (reply (env k)) as [ex | p]; reflexivity.
  - unfold attempt, discoveryAttempt.
    cbn [afterRetries drv world dAttempts dStopped dClient dRequests orb
         _currentTimeout _try _retries].
    rewrite (discovery_next_timeout k) by lia.
    rewrite Hsb, Hsd. cbn [orb dStopped].
    destruct (reply (env k)) as [ex | p]; reflexivity.
Qed.

(** X19.  When the transport answers request [k + 1] with
    DispatcherShutdown, discovery gives up at once: no further request is
    sent, and it fails with RequestTimeoutException. *)
Theorem discovery_gives_up_on_shutdown (r0 ra0 : Z) (s0 : Duration)
    (remotes myID : nat) (e : nat -> exn) (k : nat) :
  (myID < remotes)%nat -> (k < 10)%nat ->
  (forall i, (i < k)%nat -> retriedFailure (env i) = Some (e i)) ->
  env k = {| stopBefore := false; reply := RpcFailed DispatcherShutdown;
             stopDuring := false |} ->
  _discovery r0 ra0 s0 remotes myID env discoveryStart
  = Some (Failed RequestTimeoutException,
          {| dStopped := false; dClient := None;
             dRequests := discoveryTimeouts (S k); dAttempts := S k |}).
Proof.
  intros Hid Hk He Hdown. rewrite discovery_run by exact Hid.
  erewrite (do_until_last_attempt e k); [| exact Hk | exact He | reflexivity |].
  - unfold attempt, discoveryAttempt.
    cbn [afterRetries drv world dAttempts dStopped dClient dRequests orb
         _currentTimeout _try _retries].
    rewrite (discovery_next_timeout k) by lia.
    rewrite Hdown. cbn [stopBefore reply stopDuring orb dStopped result world].
    rewrite discoveryTimeouts_S. reflexivity.
  - unfold attempt, discoveryAttempt.
    cbn [afterRetries drv world dAttempts dStopped dClient dRequests orb
         _currentTimeout _try _retries].
    rewrite (discovery_next_timeout k) by lia.
    rewrite Hdown. cbn [stopBefore reply stopDuring orb dStopped].
    unfold loopDone. cbn. reflexivity.
Qed.

(** An attempt on a stopped client fails at once and sends nothing. *)
Lemma attempt_afterStop (k j : nat) :
  (j < 10)%nat ->
  attempt (discoveryAttempt env) (afterStop k j) = afterStop k (S j).
Proof.
  intros Hj. unfold attempt, discoveryAttempt, afterStop.
  cbn [drv world _try _retries _rate _currentTimeout _used
       dStopped dClient dRequests dAttempts orb].
  rewrite (discovery_next_timeout j) by lia.
  rewrite seq_S, map_app. cbn [map Nat.add].
  rewrite factorial_S.
  replace (Z.of_nat (S j)) with (Z.of_nat j + 1) by lia.
  replace (msec 10 * (factorial j * (Z.of_nat j + 1)))
    with (msec 10 * factorial j * (Z.of_nat j + 1)) by lia.
  reflexivity.
Qed.

Lemma do_until_afterStop (k j fuel : nat) :
  (j + fuel = 10)%nat ->
  do_until (discoveryAttempt env) fuel (afterStop k j)
  = Some (afterStop k 10).
Proof.
  revert j. induction fuel as [|fuel IH]; intros j Hfuel.
  - replace j with 10%nat by lia. reflexivity.
  - cbn [do_until]. unfold loopDone at 1.
    cbn [afterStop drv _success _retries _try orb].
    rewrite (proj2 (Z.leb_gt 10 (Z.of_nat j))) by lia.
    rewrite attempt_afterStop by lia. apply IH. lia.
Qed.

(** X20.  When the client is stopped between two attempts, the retry loop
    is not left: each remaining attempt is made and fails at once with
    "we were stopped", none of them sends a request, and discovery fails
    with that error after the tenth attempt. *)
Theorem discovery_stopped_between_attempts (r0 ra0 : Z) (s0 : Duration)
    (remotes myID : nat) (e : nat -> exn) (k : nat) :
  (myID < remotes)%nat -> (k < 10)%nat ->
  (forall i, (i < k)%nat -> retriedFailure (env i) = Some (e i)) ->
  stopBefore (env k) = true ->
  _discovery r0 ra0 s0 remotes myID env discoveryStart
  = Some (Failed weWereStopped,
          {| dStopped := true; dClient := None;
             dRequests := discoveryTimeouts k; dAttempts := 10 |}).
Proof.
  intros Hid Hk He Hsb. rewrite discovery_run by exact Hid.
  rewrite (do_until_afterRetries e k (S (9 - k))) by (auto with lia).
  cbn [do_until]. unfold loopDone at 1.
  cbn [afterRetries drv _success _retries _try orb].
  rewrite (proj2 (Z.leb_gt 10 (Z.of_nat k))) by lia.
  assert (Hfirst : attempt (discoveryAttempt env)
                     (afterRetries k (lastFailure e k)) = afterStop k (S k)).
  { unfold attempt, discoveryAttempt, afterRetries, afterStop.
    cbn [drv world _try _retries _rate _currentTimeout _used
         dStopped dClient dRequests dAttempts orb].
    rewrite (discovery_next_timeout k) by lia.
    rewrite Hsb. cbn [orb dStopped].
    rewrite seq_S, map_app. cbn [map Nat.add].
    rewrite factorial_S.
    replace (Z.of_nat (S k)) with (Z.of_nat k + 1) by lia.
    replace (msec 10 * (factorial k * (Z.of_nat k + 1)))
      with (msec 10 * factorial k * (Z.of_nat k + 1)) by lia.
    reflexivity. }
  rewrite Hfirst, (do_until_afterStop k (S k) (9 - k)) by lia.
  reflexivity.
Qed.

End DiscoveryProperties.

Lemma discovery_exhausts_retries_witness :
  (0 < 1)%nat /\
  _discovery 3 5 1 1 0 alwaysEmpty discoveryStart
  = Some (Failed noRemoteEndpoint,
          {| dStopped := false; dClient := None;
             dRequests := discoveryTimeouts 10; dAttempts := 10 |}).
Proof.
  split; [lia|].
  apply (discovery_exhausts_retries alwaysEmpty 3 5 1 1 0
           (fun _ => noRemoteEndpoint)); [lia|].
  intros i _. reflexivity.
Defined.

Lemma afterThreeTimeouts_retried (last : attemptInput) (i : nat) :
  (i < 3)%nat ->
  retriedFailure (afterThreeTimeouts last i) = Some RequestTimeoutException.
Proof.
  intros Hi. unfold afterThreeTimeouts.
  rewrite (proj2 (Nat.ltb_lt i 3)) by exact Hi. reflexivity.
Defined.

Lemma discovery_finds_endpoint_witness :
  List.concat urlInTwoBuffers <> [] /\
  _discovery 3 5 1 1 0
    (afterThreeTimeouts {| stopBefore := false;
                           reply := RpcPayload (Some urlInTwoBuffers);
                           stopDuring := false |})
    discoveryStart
  = Some (Ready,
          {| dStopped := false; dClient := Some (List.concat urlInTwoBuffers);
             dRequests := discoveryTimeouts 4; dAttempts := 4 |}).
Proof.
  split; [discriminate|].
  apply (discovery_finds_endpoint _ 3 5 1 1 0
           (fun _ => RequestTimeoutException) 3 urlInTwoBuffers);
    [lia | lia | intros i Hi; apply afterThreeTimeouts_retried, Hi
    | reflexivity | discriminate].
Defined.

Lemma discovery_stopped_during_request_witness :
  _discovery 3 5 1 1 0
    (afterThreeTimeouts {| stopBefore := false;
                           reply := RpcPayload (Some urlInTwoBuffers);
                           stopDuring := true |})
    discoveryStart
  = Some (Ready,
          {| dStopped := true; dClient := None;
             dRequests := discoveryTimeouts 4; dAttempts := 4 |}).
Proof.
  apply (discovery_stopped_during_request _ 3 5 1 1 0
           (fun _ => RequestTimeoutException) 3);
    [lia | lia | intros i Hi; apply afterThreeTimeouts_retried, Hi
    | reflexivity | reflexivity].
Defined.

Lemma discovery_gives_up_on_shutdown_witness :
  _discovery 3 5 1 1 0
    (afterThreeTimeouts {| stopBefore := false;
                           reply := RpcFailed DispatcherShutdown;
                           stopDuring := false |})
    discoveryStart
  = Some (Failed RequestTimeoutException,
          {| dStopped := false; dClient := None;
             dRequests := discoveryTimeouts 4; dAttempts := 4 |}).
Proof.
  apply (discovery_gives_up_on_shutdown _ 3 5 1 1 0
           (fun _ => RequestTimeoutException) 3);
    [lia | lia | intros i Hi; apply afterThreeTimeouts_retried, Hi
    | reflexivity].
Defined.

(** The discovery scenario evaluated: three timeouts, then the URL. *)
Example discovery_scenario :
  _discovery 3 5 1 1 0
    (afterThreeTimeouts {| stopBefore := false;
                           reply := RpcPayload (Some urlInTwoBuffers);
                           stopDuring := false |})
    discoveryStart
  = Some (Ready,
          {| dStopped := false;
             dClient := Some [Byte.x74; Byte.x63; Byte.x70; Byte.x3a; Byte.x39];
             dRequests := [msec 10; msec 20; msec 60; msec 240];
             dAttempts := 4 |}).
Proof. vm_compute. reflexivity. Qed.

Lemma discovery_stopped_between_attempts_witness :
  _discovery 3 5 1 1 0
    (afterThreeTimeouts {| stopBefore := true;
                           reply := RpcPayload (Some urlInTwoBuffers);
                           stopDuring := false |})
    discoveryStart
  = Some (Failed weWereStopped,
          {| dStopped := true; dClient := None;
             dRequests := discoveryTimeouts 3; dAttempts := 10 |}).
Proof.
  apply (discovery_stopped_between_attempts _ 3 5 1 1 0
           (fun _ => RequestTimeoutException) 3);
    [lia | lia | intros i Hi; apply afterThreeTimeouts_retried, Hi
    | reflexivity].
Defined.

(** ** Filling the pipeline *)

(** A turn of a running, unparked sender with credit. *)
Lemma senderStep_sends now c :
  client_ok c -> _stopped c = false -> _haveSendPromise c = false ->
  canSend c = true -> padding < responseSize (config (_session c)) ->
  exists c1 evs1,
    senderStep now c = Ok (c1, evs1) /\
    _stopped c1 = false /\ _haveSendPromise c1 = false /\
    _session c1 =
      {| config := config (_session c);
         sessionID := sessionID (_session c);
         totalSize := wrap64 (totalSize (_session c)
                              + responseSize (config (_session c)));
         totalCount := wrap64 (totalCount (_session c) + 1);
         unackedSize := unackedSize (_session c)
                        + responseSize (config (_session c));
         unackedCount := unackedCount (_session c) + 1 |}.
Proof.
  intros Hok Hs Hp Hcan Hpad.
  destruct (send_Ok now c Hok Hcan Hpad) as (c1 & evs1 & Hsend & Hs1).
  exists c1, evs1. unfold senderStep, loopBody. rewrite Hs, Hp, Hcan.
  split; [exact Hsend|].
  unfold send in Hsend. destruct (negb _); [discriminate|].
  destruct (_ =? _); [discriminate|]. destruct (_ !! _); [|discriminate].
  injection Hsend as <- <-. cbn. auto.
Qed.

Lemma exec_fills nows c :
  client_ok c -> _stopped c = false -> _haveSendPromise c = false ->
  padding < responseSize (config (_session c)) ->
  unackedCount (_session c) + Z.of_nat (length nows)
    <= pipelineCount (config (_session c)) ->
  (nows <> [] ->
   unackedSize (_session c)
     + (Z.of_nat (length nows) - 1) * responseSize (config (_session c))
     < pipelineSize (config (_session c))) ->
  exists c' evs,
    exec (map Sender nows) c = Ok (c', evs) /\
    _stopped c' = false /\ _haveSendPromise c' = false /\
    length (sentRequests evs) = length nows /\
    unackedCount (_session c')
      = unackedCount (_session c) + Z.of_nat (length nows) /\
    unackedSize (_session c')
      = unackedSize (_session c)
        + Z.of_nat (length nows) * responseSize (config (_session c)) /\
    config (_session c') = config (_session c).
Proof.
  revert c. induction nows as [|now nows IH]; intros c Hok Hs Hp Hpad HC HS.
  - exists c, []. cbn. repeat split; auto; lia.
  - pose proof (client_ok_ranges c Hok) as (_ & _ & HuS & HuC & HP & HSz & HR).
    cbn [length] in HC, HS. specialize (HS ltac:(discriminate)).
    assert (Hcan : canSend c = true).
    { unfold canSend. apply andb_true_iff. split.
      - apply Z.ltb_lt. nia.
      - apply Z.ltb_lt. lia. }
    destruct (senderStep_sends now c Hok Hs Hp Hcan Hpad)
      as (c1 & evs1 & H1 & Hs1 & Hp1 & Hsess).
    assert (Hok1 : client_ok c1)
      by (eapply (step_client_ok (Sender now)); [exact Hok | reflexivity | exact H1]).
    pose proof (step_sends (Sender now) c c1 evs1 H1) as [_ Hstep].
    cbn [sends] in Hstep. rewrite Hs, Hp, Hcan in Hstep. cbn in Hstep.
    destruct Hstep as (_ & _ & _ & Hreq).
    destruct (IH c1 Hok1 Hs1 Hp1) as (c' & evs & H2 & Hs' & Hp' & Hn & HC' & HS' & Hcfg');
      try (rewrite Hsess; cbn; first [exact Hpad | lia | intros; nia]).
    exists c', (evs1 ++ evs). cbn [map exec step]. rewrite H1, H2.
    split; [reflexivity|]. split; [exact Hs'|]. split; [exact Hp'|].
    rewrite sentRequests_app, length_app, Hreq, Hn, HC', HS', Hcfg', Hsess.
    cbn. repeat split; lia.
Qed.

(** X21.  Without acks the sender keeps sending as long as both credits
    last and does not park before: if [n] requests fit the count credit and
    the first [n - 1] of them stay below the byte credit, the first [n]
    turns of the sender send [n] requests, all of them unacknowledged, and
    leave the sender unparked. *)
Theorem sender_fills_pipeline cfg sid nows :
  config_ok cfg = true -> u64b sid = true ->
  padding < responseSize cfg ->
  Z.of_nat (length nows) <= pipelineCount cfg ->
  (Z.of_nat (length nows) - 1) * responseSize cfg < pipelineSize cfg ->
  exists c evs,
    exec (map Sender nows) (startSession cfg sid) = Ok (c, evs) /\
    length (sentRequests evs) = length nows /\
    unackedCount (_session c) = Z.of_nat (length nows) /\
    unackedSize (_session c) = Z.of_nat (length nows) * responseSize cfg /\
    _haveSendPromise c = false.
Proof.
  intros Hcfg Hsid Hpad HC HS.
  destruct (exec_fills nows (startSession cfg sid))
    as (c & evs & H & _ & Hp & Hn & HuC & HuS & _);
    try (cbn; first [reflexivity | exact Hpad | lia | intros; lia]).
  { apply startSession_ok; assumption. }
  exists c, evs. cbn in HuC, HuS. auto.
Qed.

Lemma sender_fills_pipeline_witness :
  padding < responseSize defaultConfig /\
  exists c evs,
    exec (map Sender [1; 2; 3; 4; 5; 6; 7; 8; 9; 10])
      (startSession defaultConfig 7) = Ok (c, evs) /\
    length (sentRequests evs) = length [1; 2; 3; 4; 5; 6; 7; 8; 9; 10] /\
    unackedCount (_session c)
      = Z.of_nat (length [1; 2; 3; 4; 5; 6; 7; 8; 9; 10]) /\
    unackedSize (_session c)
      = Z.of_nat (length [1; 2; 3; 4; 5; 6; 7; 8; 9; 10])
        * responseSize defaultConfig /\
    _haveSendPromise c = false.
Proof.
  split; [reflexivity|].
  apply (sender_fills_pipeline defaultConfig 7 [1; 2; 3; 4; 5; 6; 7; 8; 9; 10]);
    first [reflexivity | vm_compute; discriminate].
Defined.
